(** * A shallow embedding of [mp3.py]: playlist controller and completion monitor

    The player object is a record of the attributes that [MP3Player.__init__]
    assigns.  Every method is a computation in a small state-and-exception
    monad over a [world]: the player object together with the chronological
    trace of everything the method did that is visible from outside (lock
    operations, attribute accesses, calls into [pygame.mixer], printed lines,
    sleeps).  The audio engine is not part of the program; it is a parameter
    that decides for each call, from the calls made so far, whether the call
    raises and what [get_busy] answers. *)

From Stdlib Require Import ZArith List String Ascii Bool Lia.
From Stdlib Require Import Permutation Sorting.Sorted DecimalString.
Import ListNotations.

Local Open Scope string_scope.
Local Open Scope Z_scope.
Local Open Scope list_scope.

(** ** Python values used by the program *)

Module Py.

(** [len(l)] *)
Definition len {A : Type} (l : list A) : Z := Z.of_nat (List.length l).

(** [not l] for a list [l] *)
Definition is_empty {A : Type} (l : list A) : bool :=
  match l with [] => true | _ :: _ => false end.

(** [l[i]] for an integer [i]: a negative index counts from the end, an
    index outside the list has no element ([IndexError]). *)
Definition getitem {A : Type} (l : list A) (i : Z) : option A :=
  let j := if i <? 0 then i + len l else i in
  if (j <? 0) || (len l <=? j) then None else nth_error l (Z.to_nat j).

(** [str(i)] for an integer [i] *)
Definition str (i : Z) : string := NilZero.string_of_int (Z.to_int i).

(** [s.endswith(suffix)] *)
Definition endswith (suffix s : string) : bool :=
  let n := String.length s in
  let m := String.length suffix in
  (m <=? n)%nat && (substring (n - m) m s =? suffix)%string.

End Py.

(** ** Paths, directories and [find_mp3_files] *)

(** A [pathlib] path is its sequence of parts; paths are ordered as these
    sequences are, part by part, each part as a string (the order of
    [PurePosixPath], which compares the parts as they are written). *)
Definition path := list string.

(** [p.name]: the last part. *)
Definition name (p : path) : string := last p "".

Definition path_compare (p q : path) : comparison :=
  list_compare String.compare p q.

(** [p <= q], which is [not (q < p)] on a total order *)
Definition path_leb (p q : path) : bool :=
  match path_compare p q with Gt => false | _ => true end.

(** A directory on disk: where it is, and the names of its entries in the
    order in which the operating system enumerates them. *)
Record directory := {
  location : path;
  entries : list string
}.

(** [directory.glob("*.mp3")]: the entries whose name ends in [.mp3], in
    enumeration order, each as the path below [directory]. *)
Definition glob_mp3 (d : directory) : list path :=
  map (fun n => location d ++ [n]) (filter (Py.endswith ".mp3") (entries d)).

(** [sorted(xs)]: an ascending, stable sort. *)
Fixpoint insert (p : path) (l : list path) : list path :=
  match l with
  | [] => [p]
  | q :: l' => if path_leb p q then p :: q :: l' else q :: insert p l'
  end.

Definition sorted (l : list path) : list path := fold_right insert [] l.

(** [find_mp3_files(directory)] *)
Definition find_mp3_files (d : directory) : list path := sorted (glob_mp3 d).

(** ** The player object *)

(** The three values that [self.state] takes: the strings ["stopped"],
    ["playing"] and ["paused"]. *)
Inductive playback_status := Stopped | Playing | Paused.

Definition status_str (s : playback_status) : string :=
  match s with
  | Stopped => "stopped"
  | Playing => "playing"
  | Paused => "paused"
  end.

Definition status_eqb (a b : playback_status) : bool :=
  match a, b with
  | Stopped, Stopped | Playing, Playing | Paused, Paused => true
  | _, _ => false
  end.

(** The attributes of an [MP3Player].  [_lock] is [true] while the lock is
    held; [_stop_event] is [true] once the event is set. *)
Record MP3Player := {
  tracks : list path;
  loop : bool;
  current_index : option Z;
  state : playback_status;
  _stop_event : bool;
  _lock : bool
}.

(** ** What a method does that is visible from outside *)

Inductive engine_call :=
| mixer_init
| music_load (track : path)
| music_play
| music_pause
| music_unpause
| music_stop
| music_get_busy
| mixer_quit.

Inductive field := f_tracks | f_loop | f_current_index | f_state.

Inductive access := Read | Write.

Inductive event :=
| Acquire
| Release
| Access (a : access) (f : field)
| Call (c : engine_call)
| Print (line : string)
| Sleep
| StartMonitor.

Record world := {
  self : MP3Player;
  trace : list event
}.

(** The calls into the engine among the events of a trace, in order. *)
Fixpoint calls (tr : list event) : list engine_call :=
  match tr with
  | [] => []
  | Call c :: tr' => c :: calls tr'
  | _ :: tr' => calls tr'
  end.

(** The lines printed, in order. *)
Fixpoint printed (tr : list event) : list string :=
  match tr with
  | [] => []
  | Print s :: tr' => s :: printed tr'
  | _ :: tr' => printed tr'
  end.

(** The engine: given the calls made before, [fails] tells whether a call
    raises [pygame.error] (with which message), and [busy] is the answer of
    [get_busy]. *)
Record engine := {
  fails : list engine_call -> engine_call -> option string;
  busy : list engine_call -> bool
}.

Inductive exn :=
| TypeError
| IndexError
| ZeroDivisionError
| pygame_error (msg : string).

(** How a computation ends: it returns, it raises, or it waits for ever for
    a lock that is never released. *)
Inductive result (A : Type) :=
| Returned (a : A)
| Raised (e : exn)
| Blocked.

Arguments Returned {A} a.
Arguments Raised {A} e.
Arguments Blocked {A}.

Definition M (A : Type) : Type := world -> result A * world.

Definition ret {A : Type} (a : A) : M A := fun w => (Returned a, w).

Definition raise {A : Type} (e : exn) : M A := fun w => (Raised e, w).

Definition bind {A B : Type} (m : M A) (k : A -> M B) : M B :=
  fun w =>
    match m w with
    | (Returned a, w') => k a w'
    | (Raised e, w') => (Raised e, w')
    | (Blocked, w') => (Blocked, w')
    end.

Declare Scope py_scope.
Delimit Scope py_scope with py.
Notation "x <- m ;; k" := (bind m (fun x => k))
  (at level 61, m at next level, right associativity) : py_scope.
Notation "m ;; k" := (bind m (fun _ => k))
  (at level 61, right associativity) : py_scope.
Local Open Scope py_scope.

Definition emit (e : event) : M unit :=
  fun w => (Returned tt, {| self := self w; trace := trace w ++ [e] |}).

Definition update (f : MP3Player -> MP3Player) : M unit :=
  fun w => (Returned tt, {| self := f (self w); trace := trace w |}).

Definition read {A : Type} (fld : field) (proj : MP3Player -> A) : M A :=
  emit (Access Read fld) ;; fun w => (Returned (proj (self w)), w).

Definition get_tracks : M (list path) := read f_tracks tracks.
Definition get_loop : M bool := read f_loop loop.
Definition get_current_index : M (option Z) := read f_current_index current_index.
Definition get_state : M playback_status := read f_state state.

Definition set_current_index (v : option Z) : M unit :=
  emit (Access Write f_current_index) ;;
  update (fun p => {| tracks := tracks p; loop := loop p; current_index := v;
                      state := state p; _stop_event := _stop_event p;
                      _lock := _lock p |}).

Definition set_state (v : playback_status) : M unit :=
  emit (Access Write f_state) ;;
  update (fun p => {| tracks := tracks p; loop := loop p;
                      current_index := current_index p; state := v;
                      _stop_event := _stop_event p; _lock := _lock p |}).

Definition set_lock (v : bool) : M unit :=
  update (fun p => {| tracks := tracks p; loop := loop p;
                      current_index := current_index p; state := state p;
                      _stop_event := _stop_event p; _lock := v |}).

Definition set_stop_event : M unit :=
  update (fun p => {| tracks := tracks p; loop := loop p;
                      current_index := current_index p; state := state p;
                      _stop_event := true; _lock := _lock p |}).

Definition print (line : string) : M unit := emit (Print line).

(** [with self._lock: body].  The lock is not reentrant: taking it while it
    is held waits.  It is released however the body ends. *)
Definition with_lock {A : Type} (body : M A) : M A :=
  fun w =>
    if _lock (self w) then (Blocked, w)
    else
      match (emit Acquire ;; set_lock true ;; body) w with
      | (Blocked, w') => (Blocked, w')
      | (r, w') => (r, snd ((set_lock false ;; emit Release) w'))
      end.

(** [self.tracks[self.current_index]] *)
Definition current_track : M path :=
  ts <- get_tracks ;;
  ci <- get_current_index ;;
  match ci with
  | None => raise TypeError
  | Some i =>
      match Py.getitem ts i with
      | None => raise IndexError
      | Some track => ret track
      end
  end.

(** [self.current_index = (self.current_index + d) % len(self.tracks)] *)
Definition move_index (d : Z) : M unit :=
  ci <- get_current_index ;;
  match ci with
  | None => raise TypeError
  | Some i =>
      ts <- get_tracks ;;
      if Py.len ts =? 0 then raise ZeroDivisionError
      else set_current_index (Some ((i + d) mod Py.len ts))
  end.

Section Player.

(** The engine the player drives: [self.pygame]. *)
Variable pygame : engine.

(** A call [self.pygame.mixer...()] that returns nothing. *)
Definition mixer (c : engine_call) : M unit :=
  fun w =>
    let w' := {| self := self w; trace := trace w ++ [Call c] |} in
    match fails pygame (calls (trace w)) c with
    | Some msg => (Raised (pygame_error msg), w')
    | None => (Returned tt, w')
    end.

(** [self.pygame.mixer.music.get_busy()] *)
Definition get_busy : M bool :=
  fun w =>
    let w' := {| self := self w; trace := trace w ++ [Call music_get_busy] |} in
    match fails pygame (calls (trace w)) music_get_busy with
    | Some msg => (Raised (pygame_error msg), w')
    | None => (Returned (busy pygame (calls (trace w))), w')
    end.

(** The rows that the loop of [list_tracks] prints, from index [idx] on. *)
Fixpoint list_rows (idx : Z) (ts : list path) : M unit :=
  match ts with
  | [] => ret tt
  | track :: rest =>
      ci <- get_current_index ;;
      here <- match ci with
              | Some i =>
                  if idx =? i
                  then st <- get_state ;; ret (status_eqb st Playing)
                  else ret false
              | None => ret false
              end ;;
      print ((if here : bool then "->" else "  ")
             ++ " [" ++ Py.str idx ++ "] " ++ name track) ;;
      list_rows (idx + 1) rest
  end.

Definition list_tracks : M unit :=
  ts <- get_tracks ;;
  if Py.is_empty ts then print "No MP3 files found."
  else
    ts <- get_tracks ;;
    list_rows 0 ts.

Definition out_of_range (index : Z) : M unit :=
  print ("Index " ++ Py.str index ++ " out of range.").

Definition play (index : option Z) : M unit :=
  ts <- get_tracks ;;
  if Py.is_empty ts then print "Playlist is empty."
  else
    with_lock (
      proceed <- match index with
                 | Some i =>
                     if i <? 0 then out_of_range i ;; ret false
                     else
                       ts <- get_tracks ;;
                       if Py.len ts <=? i then out_of_range i ;; ret false
                       else set_current_index (Some i) ;; ret true
                 | None => ret true
                 end ;;
      if proceed : bool then
        track <- current_track ;;
        mixer (music_load track) ;;
        mixer music_play ;;
        set_state Playing ;;
        print ("Playing: " ++ name track)
      else ret tt).

Definition pause : M unit :=
  with_lock (
    st <- get_state ;;
    if negb (status_eqb st Playing) then print "Nothing is currently playing."
    else
      mixer music_pause ;;
      set_state Paused ;;
      print "Paused.").

Definition resume : M unit :=
  with_lock (
    st <- get_state ;;
    if negb (status_eqb st Paused) then print "Player is not paused."
    else
      mixer music_unpause ;;
      set_state Playing ;;
      print "Resumed.").

Definition stop : M unit :=
  with_lock (
    mixer music_stop ;;
    set_state Stopped ;;
    print "Stopped.").

Definition _play_current : M unit :=
  track <- current_track ;;
  mixer (music_load track) ;;
  mixer music_play ;;
  set_state Playing ;;
  print ("Playing: " ++ name track).

Definition next_track : M unit :=
  with_lock (
    ci <- get_current_index ;;
    match ci with
    | None => print "No tracks available."
    | Some _ => move_index 1 ;; _play_current
    end).

Definition previous_track : M unit :=
  with_lock (
    ci <- get_current_index ;;
    match ci with
    | None => print "No tracks available."
    | Some _ => move_index (-1) ;; _play_current
    end).

Definition status : M unit :=
  ci <- get_current_index ;;
  match ci with
  | None => print "No track loaded."
  | Some _ =>
      track <- current_track ;;
      print ("Track: " ++ name track) ;;
      st <- get_state ;;
      print ("State: " ++ status_str st)
  end.

Definition close : M unit :=
  set_stop_event ;;
  mixer music_stop ;;
  mixer mixer_quit.

(** [self.current_index == len(self.tracks) - 1 and not self.loop] *)
Definition at_end_without_loop : M bool :=
  ci <- get_current_index ;;
  ts <- get_tracks ;;
  match ci with
  | Some i =>
      if i =? Py.len ts - 1 then l <- get_loop ;; ret (negb l) else ret false
  | None => ret false
  end.

(** One pass through the body of the [while] loop of [_monitor_playback]. *)
Definition monitor_cycle : M unit :=
  emit Sleep ;;
  with_lock (
    st <- get_state ;;
    if negb (status_eqb st Playing) then ret tt
    else
      b <- get_busy ;;
      if b : bool then ret tt
      else
        ci <- get_current_index ;;
        match ci with
        | None => ret tt
        | Some _ =>
            fin <- at_end_without_loop ;;
            if fin : bool then set_state Stopped
            else move_index 1 ;; _play_current
        end).

(** How the monitor thread stands after at most [n] passes. *)
Inductive monitor_end := Left_loop | Still_running.

Definition stop_event_is_set : M bool :=
  fun w => (Returned (_stop_event (self w)), w).

(** [_monitor_playback], followed for at most [n] passes of its loop. *)
Fixpoint _monitor_playback (n : nat) : M monitor_end :=
  match n with
  | O => ret Still_running
  | S n' =>
      s <- stop_event_is_set ;;
      if s : bool then ret Left_loop
      else monitor_cycle ;; _monitor_playback n'
  end.

(** [MP3Player.__init__(directory, loop)]: the attributes, then the engine
    is initialised and the monitor thread started. *)
Definition new_player (d : directory) (lp : bool) : MP3Player :=
  let ts := find_mp3_files d in
  {| tracks := ts;
     loop := lp;
     current_index := if Py.is_empty ts then None else Some 0;
     state := Stopped;
     _stop_event := false;
     _lock := false |}.

Definition __init__ (d : directory) (lp : bool) : result unit * world :=
  (mixer mixer_init ;; emit StartMonitor)
    {| self := new_player d lp; trace := [] |}.

End Player.


(** ** Vocabulary of the statements *)

Definition path_le (p q : path) : Prop := path_leb p q = true.

(** The engine accepts [load track] followed by [play] after the calls [h]. *)
Definition starts (pygame : engine) (h : list engine_call) (track : path) : Prop :=
  fails pygame h (music_load track) = None /\
  fails pygame (h ++ [music_load track]) music_play = None.

(** The track at index [i] of a playlist. *)
Definition track_at (ts : list path) (i : Z) : path := nth (Z.to_nat i) ts [].

(** ** Example inputs *)

Definition music_ab : directory :=
  {| location := ["/"; "music"]; entries := ["a.mp3"; "cover.jpg"; "b.mp3"] |}.

Definition music_ba : directory :=
  {| location := ["/"; "music"]; entries := ["cover.jpg"; "a.mp3"; "b.mp3"] |}.


Definition abc : list path :=
  [["/"; "music"; "a.mp3"]; ["/"; "music"; "b.mp3"]; ["/"; "music"; "c.mp3"]].

(** A player on the playlist [ts], as [__init__] leaves it but with the
    given index and state, before anything was traced. *)
Definition player_at (ts : list path) (lp : bool) (ci : option Z) (st : playback_status)
  : world :=
  {| self := {| tracks := ts; loop := lp; current_index := ci; state := st;
                _stop_event := false; _lock := false |};
     trace := [] |}.

(** An engine that accepts every call and is never busy. *)
Definition idle_engine : engine :=
  {| fails := fun _ _ => None; busy := fun _ => false |}.

(** An engine that cannot load any file, and is otherwise as [idle_engine]. *)
Definition unreadable : engine :=
  {| fails := fun _ c => match c with
                         | music_load _ => Some "No file"
                         | _ => None
                         end;
     busy := fun _ => false |}.

(** The number of passes that a monitor began: one sleep each. *)
Fixpoint passes (tr : list event) : nat :=
  match tr with
  | [] => O
  | Sleep :: tr' => S (passes tr')
  | _ :: tr' => passes tr'
  end.

(** ** Operations, one after the other *)

(** The operations on a player: the commands of the prompt and one pass of
    the monitor.  The lock makes each of them run alone. *)
Inductive operation :=
| op_list
| op_play (index : option Z)
| op_pause
| op_resume
| op_stop
| op_next
| op_previous
| op_status
| op_monitor_cycle.

Definition perform (pygame : engine) (o : operation) : M unit :=
  match o with
  | op_list => list_tracks
  | op_play index => play pygame index
  | op_pause => pause pygame
  | op_resume => resume pygame
  | op_stop => stop pygame
  | op_next => next_track pygame
  | op_previous => previous_track pygame
  | op_status => status
  | op_monitor_cycle => monitor_cycle pygame
  end.

(** The world after a sequence of operations, whatever their outcomes. *)
Fixpoint perform_all (pygame : engine) (os : list operation) (w : world) : world :=
  match os with
  | [] => w
  | o :: os' => perform_all pygame os' (snd (perform pygame o w))
  end.

(** [current_index] is [None] exactly on the empty playlist, and otherwise
    an index of the playlist. *)
Definition index_ok (p : MP3Player) : Prop :=
  (current_index p = None <-> tracks p = []) /\
  (forall i, current_index p = Some i -> 0 <= i < Py.len (tracks p)).

(** What an operation may do to the index: keep it, or set it to an index
    of the (unchanged) playlist. *)
Definition index_step (p p' : MP3Player) : Prop :=
  tracks p' = tracks p /\
  (current_index p' = current_index p \/
   exists i, current_index p' = Some i /\ 0 <= i < Py.len (tracks p)).

(** ** The lock discipline *)

(** The attributes that the operations change. *)
Definition shared (f : field) : bool :=
  match f with
  | f_current_index | f_state => true
  | f_tracks | f_loop => false
  end.

(** [guarded held tr]: along [tr], begun with the lock held or not, every
    access to a shared attribute happens while the lock is held. *)
Fixpoint guarded (held : bool) (tr : list event) : bool :=
  match tr with
  | [] => true
  | Acquire :: tr' => guarded true tr'
  | Release :: tr' => guarded false tr'
  | Access _ f :: tr' => (held || negb (shared f)) && guarded held tr'
  | _ :: tr' => guarded held tr'
  end.

(** Whether the lock is taken anywhere along [tr]. *)
Fixpoint acquires (tr : list event) : bool :=
  match tr with
  | [] => false
  | Acquire :: _ => true
  | _ :: tr' => acquires tr'
  end.

(** An engine that refuses every call. *)
Definition dead_engine : engine :=
  {| fails := fun _ _ => Some "mixer not initialized"; busy := fun _ => false |}.

(** The row that [list_tracks] prints for the track at index [idx] of a
    player: marked when this is the current track and it is playing. *)
Definition row (p : MP3Player) (idx : Z) (track : path) : string :=
  let here := match current_index p with
              | Some i => (idx =? i) && status_eqb (state p) Playing
              | None => false
              end in
  ((if here then "->" else "  ") ++ " [" ++ Py.str idx ++ "] " ++ name track)%string.

(** ** The prompt and [main] *)

(** What a call of [input] does: it returns the line that was typed, or it
    raises because the input has ended or the user has interrupted. *)
Inductive keyboard :=
| Line (text : string)
| EOFError
| KeyboardInterrupt.

(** What can go wrong at the prompt: an exception out of the player, or the
    [ValueError] of [int] on a text that is no number. *)
Inductive error :=
| player_error (e : exn)
| ValueError.

(** How one turn of the prompt's loop ends. *)
Inductive turn_end :=
| Continue
| Break
| Fails (e : error)
| Hangs.

(** How the loop stands when the typed input is used up. *)
Inductive loop_end :=
| Ended
| Failed (e : error)
| Waiting
| Hung.

(** [str(p)] for a POSIX path: the parts joined by [/], after the root
    when the path has one. *)
Definition path_str (p : path) : string :=
  match p with
  | [] => "."
  | first :: rest =>
      if String.prefix "/" first
      then (first ++ String.concat "/" rest)%string
      else String.concat "/" p
  end.

(** The words that the prompt understands. *)
Definition actions : list string :=
  ["play"; "pause"; "resume"; "stop"; "next"; "skip"; "prev"; "previous";
   "list"; "status"; "quit"; "exit"].

(** What is found at the path given to [main]. *)
Inductive on_disk :=
| Missing
| File
| Dir (names : list string).

(** How the program ends: with an exit code, with an exception that nothing
    catches, or not within the input considered. *)
Inductive exit :=
| SystemExit (code : Z)
| Uncaught (e : error)
| Unfinished.

(** A run of [main]: how it ends, the player it built if it got that far,
    and everything that happened, in order. *)
Record session := {
  ending : exit;
  player : option MP3Player;
  output : list event
}.

Section Prompt.

(** The engine, and Python's [str.strip], [str.split], [str.lower] and
    [int] ([None] where [int] raises [ValueError]). *)
Variable pygame : engine.
Variable strip : string -> string.
Variable split : string -> list string.
Variable lower : string -> string.
Variable int : string -> option Z.

Definition after_call (r : result unit * world) : turn_end * world :=
  match r with
  | (Returned _, w) => (Continue, w)
  | (Raised e, w) => (Fails (player_error e), w)
  | (Blocked, w) => (Hangs, w)
  end.

(** One turn of the loop of [interactive_loop], from the line that [input]
    returned.  The prompt that [input] writes is not part of the trace. *)
Definition command_turn (text : string) (w : world) : turn_end * world :=
  let command := strip text in
  if (command =? EmptyString)%string then (Continue, w)
  else
    match split command with
    | [] => (Fails (player_error IndexError), w)
    | word :: args =>
        let action := lower word in
        if (action =? "play")%string then
          match args with
          | [] => after_call (play pygame None w)
          | arg :: _ =>
              match int arg with
              | Some index => after_call (play pygame (Some index) w)
              | None => (Fails ValueError, w)
              end
          end
        else if (action =? "pause")%string then after_call (pause pygame w)
        else if (action =? "resume")%string then after_call (resume pygame w)
        else if (action =? "stop")%string then after_call (stop pygame w)
        else if (action =? "next")%string || (action =? "skip")%string
        then after_call (next_track pygame w)
        else if (action =? "prev")%string || (action =? "previous")%string
        then after_call (previous_track pygame w)
        else if (action =? "list")%string then after_call (list_tracks w)
        else if (action =? "status")%string then after_call (status w)
        else if (action =? "quit")%string || (action =? "exit")%string
        then (Break, w)
        else after_call (print "Unknown command." w)
    end.

(** The [while True] loop of [interactive_loop], for the successive
    outcomes of [input]. *)
Fixpoint prompt_loop (keys : list keyboard) (w : world) : loop_end * world :=
  match keys with
  | [] => (Waiting, w)
  | Line text :: keys' =>
      match command_turn text w with
      | (Continue, w') => prompt_loop keys' w'
      | (Break, w') => (Ended, w')
      | (Fails e, w') => (Failed e, w')
      | (Hangs, w') => (Hung, w')
      end
  | EOFError :: _ | KeyboardInterrupt :: _ => (Ended, snd (print EmptyString w))
  end.

Definition interactive_loop (keys : list keyboard) (w : world)
  : loop_end * world :=
  prompt_loop keys
    (snd (print
       "Commands: play [index], pause, resume, stop, next, prev, list, status, quit"
       w)).

Definition ended (x : exit) (w : world) : session :=
  {| ending := x; player := Some (self w); output := trace w |}.

(** Goes on with [k] when a step of [main] has returned; otherwise the
    exception leaves [main]. *)
Definition and_then {A : Type} (r : result A * world)
           (k : A -> world -> session) : session :=
  match r with
  | (Returned a, w) => k a w
  | (Raised e, w) => ended (Uncaught (player_error e)) w
  | (Blocked, w) => ended Unfinished w
  end.

(** The [finally] clause of [main]: [player.close()], then what was under
    way goes on, unless [close] itself raised. *)
Definition finally (x : exit) (w : world) : session :=
  and_then (close pygame w) (fun _ w' => ended x w').

(** [main], for the arguments after [parse_args] and [resolve]: the
    directory's path, what is on disk there, and the loop flag.  The
    monitor thread that [__init__] starts runs beside [main]; its passes
    are operations of their own and not part of this run. *)
Definition main (directory : path) (disk : on_disk) (lp : bool)
           (keys : list keyboard) : session :=
  match disk with
  | Dir names =>
      match __init__ pygame {| location := directory; entries := names |} lp with
      | (Returned _, w0) =>
          and_then (get_tracks w0) (fun ts w1 =>
            if Py.is_empty ts
            then ended (SystemExit 1)
                   (snd (print "No MP3 files found in the specified directory." w1))
            else
              and_then (list_tracks w1) (fun _ w2 =>
              and_then (get_current_index w2) (fun ci w3 =>
              and_then (play pygame ci w3) (fun _ w4 =>
                match interactive_loop keys w4 with
                | (Ended, w5) => finally (SystemExit 0) w5
                | (Failed e, w5) => finally (Uncaught e) w5
                | (Waiting, w5) | (Hung, w5) => ended Unfinished w5
                end))))
      | (Raised e, w0) =>
          {| ending := Uncaught (player_error e); player := None;
             output := trace w0 |}
      | (Blocked, w0) =>
          {| ending := Unfinished; player := None; output := trace w0 |}
      end
  | _ =>
      {| ending := SystemExit 1; player := None;
         output := [Print ("Directory not found: " ++ path_str directory)] |}
  end.

End Prompt.

(** Stand-ins for the built-ins, on plain lower-case words separated by
    single spaces: enough to run the examples. *)
Fixpoint words_from (word : string) (s : string) : list string :=
  match s with
  | EmptyString => [word]
  | String " " s' => word :: words_from EmptyString s'
  | String c s' => words_from (word ++ String c EmptyString) s'
  end.

Definition simple_split (s : string) : list string := words_from EmptyString s.

Definition simple_int (s : string) : option Z :=
  match s with
  | "0" => Some 0
  | "1" => Some 1
  | "2" => Some 2
  | _ => None
  end.

(** An engine that accepts every call and has always finished the track
    when it is asked. *)
Definition always_idle (pygame : engine) : Prop :=
  (forall h c, fails pygame h c = None) /\ (forall h, busy pygame h = false).

(** The line that announces a track. *)
Definition announced (track : path) : string := ("Playing: " ++ name track)%string.

(** * Properties *)

(** ** The order on paths *)

Section PathOrder.

Lemma string_compare_refl (s : string) : String.compare s s = Eq.
Proof.
  induction s as [|a s IH]; simpl; [reflexivity|].
  unfold Ascii.compare. rewrite N.compare_refl. exact IH.
Qed.

Lemma string_compare_eq (s t : string) : String.compare s t = Eq <-> s = t.
Proof.
  split.
  - apply String.compare_eq_iff.
  - intros ->. apply string_compare_refl.
Qed.

Lemma ascii_compare_trans (a b c : ascii) (r : comparison) :
  Ascii.compare a b = r -> Ascii.compare b c = r -> Ascii.compare a c = r.
Proof.
  unfold Ascii.compare. destruct r; intros H1 H2.
  - apply N.compare_eq_iff in H1. apply N.compare_eq_iff in H2.
    apply N.compare_eq_iff. congruence.
  - apply N.compare_lt_iff in H1. apply N.compare_lt_iff in H2.
    apply N.compare_lt_iff. now apply N.lt_trans with (N_of_ascii b).
  - apply N.compare_gt_iff in H1. apply N.compare_gt_iff in H2.
    apply N.compare_gt_iff. now apply N.lt_trans with (N_of_ascii b).
Qed.

Lemma string_compare_trans (s t u : string) (r : comparison) :
  String.compare s t = r -> String.compare t u = r -> String.compare s u = r.
Proof.
  revert t u. induction s as [|a s IH]; intros [|b t] [|c u]; simpl;
    try congruence.
  destruct (Ascii.compare a b) eqn:Hab, (Ascii.compare b c) eqn:Hbc;
    try congruence.
  - rewrite (ascii_compare_trans a b c Eq Hab Hbc). apply IH.
  - apply Ascii.compare_eq_iff in Hab. subst b. rewrite Hbc. congruence.
  - apply Ascii.compare_eq_iff in Hab. subst b. rewrite Hbc. congruence.
  - apply Ascii.compare_eq_iff in Hbc. subst c. rewrite Hab. congruence.
  - rewrite (ascii_compare_trans a b c Lt Hab Hbc). congruence.
  - apply Ascii.compare_eq_iff in Hbc. subst c. rewrite Hab. congruence.
  - rewrite (ascii_compare_trans a b c Gt Hab Hbc). congruence.
Qed.

Lemma string_compare_opp (s t : string) :
  String.compare t s = CompOpp (String.compare s t).
Proof. apply String.compare_antisym. Qed.

Lemma path_compare_opp (p q : path) :
  path_compare q p = CompOpp (path_compare p q).
Proof.
  apply list_compare_antisym.
  - exact string_compare_eq.
  - exact string_compare_opp.
Qed.

Lemma path_leb_total (p q : path) : path_leb p q = false -> path_leb q p = true.
Proof.
  unfold path_leb. rewrite (path_compare_opp p q).
  destruct (path_compare p q); simpl; congruence.
Qed.

Lemma path_leb_antisym (p q : path) :
  path_leb p q = true -> path_leb q p = true -> p = q.
Proof.
  unfold path_leb. rewrite (path_compare_opp p q).
  destruct (path_compare p q) eqn:E; simpl; try congruence.
  intros _ _. apply (list_compare_refl _ string_compare_eq). exact E.
Qed.

Lemma path_leb_trans (p q r : path) :
  path_leb p q = true -> path_leb q r = true -> path_leb p r = true.
Proof.
  unfold path_leb.
  destruct (path_compare p q) eqn:Epq; try congruence;
    destruct (path_compare q r) eqn:Eqr; try congruence; intros _ _.
  - apply (list_compare_refl _ string_compare_eq) in Epq. subst q.
    now rewrite Eqr.
  - apply (list_compare_refl _ string_compare_eq) in Epq. subst q.
    now rewrite Eqr.
  - apply (list_compare_refl _ string_compare_eq) in Eqr. subst r.
    now rewrite Epq.
  - unfold path_compare in *.
    now rewrite (list_compare_trans _ string_compare_eq p q r
                   string_compare_trans string_compare_opp Epq Eqr).
Qed.

(** Below one directory, paths are ordered as their names are. *)
Lemma path_leb_same_directory (loc : path) (n m : string) :
  path_leb (loc ++ [n]) (loc ++ [m]) = String.leb n m.
Proof.
  unfold path_leb, path_compare.
  rewrite (list_compare_app _ string_compare_eq). simpl.
  unfold String.leb. now destruct (String.compare n m).
Qed.

End PathOrder.

(** ** [sorted] sorts *)

Section Sorting.

Lemma insert_perm (p : path) (l : list path) : Permutation (insert p l) (p :: l).
Proof.
  induction l as [|q l IH]; simpl; [reflexivity|].
  destruct (path_leb p q); [reflexivity|].
  rewrite IH. apply perm_swap.
Qed.

Lemma sorted_perm (l : list path) : Permutation (sorted l) l.
Proof.
  induction l as [|p l IH]; simpl; [constructor|].
  rewrite insert_perm. now constructor.
Qed.

Lemma insert_sorted (p : path) (l : list path) :
  StronglySorted path_le l -> StronglySorted path_le (insert p l).
Proof.
  induction 1 as [|q l Hl IH Hq]; simpl.
  - repeat constructor.
  - destruct (path_leb p q) eqn:E.
    + constructor; [now constructor|].
      constructor; [exact E|].
      rewrite Forall_forall in *. intros x Hx.
      apply (path_leb_trans p q x E). now apply Hq.
    + constructor; [exact IH|].
      rewrite Forall_forall in *. intros x Hx.
      apply (Permutation_in _ (insert_perm p l)) in Hx.
      destruct Hx as [<-|Hx]; [now apply path_leb_total|now apply Hq].
Qed.

Lemma sorted_sorted (l : list path) : StronglySorted path_le (sorted l).
Proof.
  induction l as [|p l IH]; simpl; [constructor|now apply insert_sorted].
Qed.

(** There is one ascending arrangement of a collection of paths. *)
Lemma ascending_unique (l1 l2 : list path) :
  StronglySorted path_le l1 -> StronglySorted path_le l2 ->
  Permutation l1 l2 -> l1 = l2.
Proof.
  intros H1. revert l2.
  induction H1 as [|a l1 Hl1 IH Ha]; intros l2 H2 HP.
  - now apply Permutation_nil in HP.
  - destruct H2 as [|b l2 Hl2 Hb].
    + apply Permutation_sym, Permutation_nil in HP. discriminate.
    + assert (a = b) as <-.
      { rewrite Forall_forall in Ha, Hb.
        assert (In a (b :: l2)) as [E|Ia]
          by (apply (Permutation_in _ HP); now left); [now symmetry|].
        assert (In b (a :: l1)) as [E|Ib]
          by (apply (Permutation_in _ (Permutation_sym HP)); now left);
          [exact E|].
        apply path_leb_antisym; [now apply Ha|now apply Hb]. }
      f_equal. apply IH; [exact Hl2|].
      now apply Permutation_cons_inv in HP.
Qed.

Lemma filter_perm {A : Type} (f : A -> bool) (l l' : list A) :
  Permutation l l' -> Permutation (filter f l) (filter f l').
Proof.
  induction 1 as [|x l l' _ IH|x y l|l l' l'' _ IH1 _ IH2]; simpl.
  - constructor.
  - destruct (f x); [now constructor|exact IH].
  - destruct (f x), (f y); try reflexivity. apply perm_swap.
  - now transitivity (filter f l').
Qed.

End Sorting.

(** ** The playlist built at startup *)

Lemma path_leb_refl (p : path) : path_leb p p = true.
Proof.
  unfold path_leb, path_compare.
  now rewrite (proj2 (list_compare_refl _ string_compare_eq p p) eq_refl).
Qed.

(** In an ascending list, an earlier position holds a smaller path. *)
Lemma ascending_nth (l : list path) :
  StronglySorted path_le l ->
  forall (i j : nat) (p q : path),
    (i <= j)%nat -> nth_error l i = Some p -> nth_error l j = Some q ->
    path_le p q.
Proof.
  induction 1 as [|a l Hl IH Ha]; intros i j p q Hij Hp Hq.
  - destruct i; discriminate.
  - destruct i as [|i], j as [|j]; simpl in *; try lia.
    + injection Hp as <-. injection Hq as <-. apply path_leb_refl.
    + injection Hp as <-. rewrite Forall_forall in Ha.
      apply Ha. eapply nth_error_In. exact Hq.
    + apply (IH i j); [lia|assumption|assumption].
Qed.

Lemma glob_mp3_spec (d : directory) (p : path) :
  In p (glob_mp3 d) <->
  exists n, In n (entries d) /\ Py.endswith ".mp3" n = true /\
            p = location d ++ [n].
Proof.
  unfold glob_mp3. rewrite in_map_iff. split.
  - intros (n & <- & Hn). apply filter_In in Hn. now exists n.
  - intros (n & Hin & Hm & ->). exists n. split; [reflexivity|].
    now apply filter_In.
Qed.

(** C10: whatever the order in which a directory's entries are enumerated,
    the playlist built at construction holds exactly the entries whose name
    ends in [.mp3] (each once per entry), as paths below the directory, in
    ascending order of path; so the track at a smaller index is the smaller
    path, and the same directory contents always give the same playlist. *)
Theorem find_mp3_files_sorted_listing (d d' : directory) (lp : bool) :
  location d' = location d ->
  Permutation (entries d') (entries d) ->
  tracks (new_player d lp) = find_mp3_files d /\
  (forall p, In p (find_mp3_files d) <->
             exists n, In n (entries d) /\ Py.endswith ".mp3" n = true /\
                       p = location d ++ [n]) /\
  Permutation (find_mp3_files d) (glob_mp3 d) /\
  StronglySorted path_le (find_mp3_files d) /\
  (forall (i j : nat) (p q : path),
      (i <= j)%nat ->
      nth_error (find_mp3_files d) i = Some p ->
      nth_error (find_mp3_files d) j = Some q ->
      path_le p q) /\
  find_mp3_files d' = find_mp3_files d.
Proof.
  intros Hloc Hperm.
  split; [reflexivity|].
  split.
  { intros p. rewrite <- glob_mp3_spec. unfold find_mp3_files.
    split; apply Permutation_in;
      [apply sorted_perm|apply Permutation_sym, sorted_perm]. }
  split; [apply sorted_perm|].
  split; [apply sorted_sorted|].
  split; [apply ascending_nth, sorted_sorted|].
  apply ascending_unique; try apply sorted_sorted.
  unfold find_mp3_files.
  rewrite !sorted_perm. unfold glob_mp3. rewrite Hloc.
  apply Permutation_map, filter_perm, Hperm.
Qed.

Lemma find_mp3_files_sorted_listing_witness :
  location music_ba = location music_ab /\
  Permutation (entries music_ba) (entries music_ab) /\
  find_mp3_files music_ba = find_mp3_files music_ab.
Proof.
  assert (Permutation (entries music_ba) (entries music_ab)) as HP
    by apply perm_swap.
  split; [reflexivity|]. split; [exact HP|].
  apply (find_mp3_files_sorted_listing music_ab music_ba false eq_refl HP).
Defined.

(** ** Running the methods *)

Lemma calls_app (a b : list event) : calls (a ++ b) = calls a ++ calls b.
Proof.
  induction a as [|e a IH]; simpl; [reflexivity|].
  destruct e; simpl; now rewrite IH.
Qed.

Lemma printed_app (a b : list event) : printed (a ++ b) = printed a ++ printed b.
Proof.
  induction a as [|e a IH]; simpl; [reflexivity|].
  destruct e; simpl; now rewrite IH.
Qed.

Lemma len_nonneg {A : Type} (l : list A) : 0 <= Py.len l.
Proof. unfold Py.len. lia. Qed.

Lemma len_cons {A : Type} (a : A) (l : list A) : Py.len (a :: l) = Py.len l + 1.
Proof. unfold Py.len. cbn [List.length]. lia. Qed.

Lemma getitem_in_range {A : Type} (l : list A) (i : Z) (dflt : A) :
  0 <= i < Py.len l -> Py.getitem l i = Some (nth (Z.to_nat i) l dflt).
Proof.
  intros Hi. unfold Py.getitem.
  assert ((i <? 0) = false) as E by (apply Z.ltb_ge; lia).
  rewrite E. cbv zeta. rewrite E.
  assert ((Py.len l <=? i) = false) as -> by (apply Z.leb_gt; lia).
  cbn [orb]. apply nth_error_nth'. unfold Py.len in Hi. lia.
Qed.

Lemma is_empty_in_range {A : Type} (l : list A) (i : Z) :
  0 <= i < Py.len l -> Py.is_empty l = false.
Proof.
  intros Hi. destruct l; [unfold Py.len in Hi; simpl in Hi; lia|reflexivity].
Qed.

(** Unfolds the methods and the monad in [E], down to outcome and world. *)
Ltac run E :=
  cbv [list_tracks play pause resume stop next_track previous_track status
       close monitor_cycle _play_current at_end_without_loop out_of_range
       current_track move_index mixer get_busy with_lock stop_event_is_set
       get_tracks get_loop get_current_index get_state
       set_current_index set_state set_lock set_stop_event print
       read update emit bind ret raise
       self trace tracks loop current_index state _stop_event _lock fst snd]
    in E.

(** Brings call histories and printed lines into the form [f tr ++ xs]. *)
Ltac history E :=
  repeat rewrite calls_app in E; repeat rewrite printed_app in E;
  cbn [calls printed app] in E; repeat rewrite app_nil_r in E;
  repeat rewrite <- app_assoc in E; cbn [app] in E.

(** Names the outcome of a method, to be computed step by step. *)
Ltac outcome r E :=
  match goal with
  | r0 := ?m |- _ =>
      assert (E : r0 = m) by reflexivity; clearbody r0; rename r0 into r
  end.

(** Reads the conclusions off a computed outcome. *)
Ltac conclude r :=
  subst r;
  cbn [fst snd self trace tracks loop current_index state _stop_event _lock];
  repeat rewrite calls_app; repeat rewrite printed_app;
  cbn [calls printed app]; repeat rewrite app_nil_r;
  repeat rewrite <- app_assoc; cbn [app].

(** ** Starting a track *)

(** C1: on a playlist of N tracks, [play(i)] with [0 <= i < N], run with the
    lock free and an engine that accepts the load and the play, returns
    with [current_index = i] and [state = Playing], having called the engine
    exactly twice: load of track [i], then play.  The playlist, the loop flag
    and the lock are as before, and the track's name is announced. *)
Theorem play_valid_index (pygame : engine) (w : world) (i : Z) :
  _lock (self w) = false ->
  0 <= i < Py.len (tracks (self w)) ->
  starts pygame (calls (trace w)) (track_at (tracks (self w)) i) ->
  let r := play pygame (Some i) w in
  fst r = Returned tt /\
  current_index (self (snd r)) = Some i /\
  state (self (snd r)) = Playing /\
  calls (trace (snd r)) =
    calls (trace w) ++ [music_load (track_at (tracks (self w)) i); music_play] /\
  printed (trace (snd r)) =
    printed (trace w) ++ [("Playing: " ++ name (track_at (tracks (self w)) i))%string] /\
  tracks (self (snd r)) = tracks (self w) /\
  loop (self (snd r)) = loop (self w) /\
  _lock (self (snd r)) = false.
Proof.
  destruct w as [[ts lp ci st se lk] tr].
  intros Hlk Hi [Hload Hplay] r. outcome r E.
  cbn [self trace tracks _lock] in *. subst lk.
  run E. rewrite (is_empty_in_range ts i Hi) in E.
  destruct (Z.ltb_spec i 0) as [?|_]; [lia|].
  destruct (Z.leb_spec (Py.len ts) i) as [?|_]; [lia|].
  rewrite (getitem_in_range ts i [] Hi) in E. fold (track_at ts i) in *.
  history E. rewrite Hload in E. history E. rewrite Hplay in E.
  conclude r. repeat split; reflexivity.
Qed.

(** ** The monitor *)

(** C2: a monitor pass that finds [state = Playing], [current_index] at the
    last index [N - 1] and [loop] off, and to which the engine answers that
    it is not busy, returns with [state = Stopped] and [current_index]
    unchanged.  The busy query by which the pass observes the engine is its
    only call into the engine: nothing is loaded, played or stopped, and
    nothing is printed. *)
Theorem monitor_stops_at_playlist_end (pygame : engine) (w : world) :
  _lock (self w) = false ->
  state (self w) = Playing ->
  current_index (self w) = Some (Py.len (tracks (self w)) - 1) ->
  loop (self w) = false ->
  fails pygame (calls (trace w)) music_get_busy = None ->
  busy pygame (calls (trace w)) = false ->
  let r := monitor_cycle pygame w in
  fst r = Returned tt /\
  state (self (snd r)) = Stopped /\
  current_index (self (snd r)) = current_index (self w) /\
  calls (trace (snd r)) = calls (trace w) ++ [music_get_busy] /\
  printed (trace (snd r)) = printed (trace w) /\
  tracks (self (snd r)) = tracks (self w) /\
  _lock (self (snd r)) = false.
Proof.
  destruct w as [[ts lp ci st se lk] tr].
  intros Hlk Hst Hci Hlp Hok Hidle r. outcome r E.
  cbn [self trace tracks _lock state current_index loop] in *.
  subst lk st ci lp.
  run E. cbn [status_eqb negb] in E. history E.
  rewrite Hok, Hidle in E. rewrite Z.eqb_refl in E. cbn [negb] in E.
  conclude r. repeat split; reflexivity.
Qed.

(** C3: a monitor pass that finds [state = Playing] and [current_index = i]
    (an index of the playlist) with [i < N - 1] or [loop] on, to which the
    engine answers that it is not busy and then accepts the load and the
    play, returns with [current_index = (i + 1) mod N] and [state = Playing],
    having called the engine for the busy query, the load of the new
    current track and the play, in this order.  From the last index the new
    index is [0]. *)
Theorem monitor_advances (pygame : engine) (w : world) (i : Z) :
  let ts := tracks (self w) in
  let j := (i + 1) mod Py.len ts in
  _lock (self w) = false ->
  state (self w) = Playing ->
  current_index (self w) = Some i ->
  0 <= i < Py.len ts ->
  i < Py.len ts - 1 \/ loop (self w) = true ->
  fails pygame (calls (trace w)) music_get_busy = None ->
  busy pygame (calls (trace w)) = false ->
  starts pygame (calls (trace w) ++ [music_get_busy]) (track_at ts j) ->
  let r := monitor_cycle pygame w in
  fst r = Returned tt /\
  current_index (self (snd r)) = Some j /\
  state (self (snd r)) = Playing /\
  calls (trace (snd r)) =
    calls (trace w) ++ [music_get_busy; music_load (track_at ts j); music_play] /\
  printed (trace (snd r)) =
    printed (trace w) ++ [("Playing: " ++ name (track_at ts j))%string] /\
  (i = Py.len ts - 1 -> current_index (self (snd r)) = Some 0) /\
  tracks (self (snd r)) = ts /\
  _lock (self (snd r)) = false.
Proof.
  destruct w as [[ts lp ci st se lk] tr].
  intros ts' j Hlk Hst Hci Hi Hnext Hok Hidle [Hload Hplay] r. outcome r E.
  subst ts'. cbn [self trace tracks _lock state current_index loop] in *.
  subst lk st ci.
  assert (0 <= j < Py.len ts) as Hj by (apply Z.mod_pos_bound; lia).
  assert (E0 : (Py.len ts =? 0) = false) by (apply Z.eqb_neq; lia).
  assert (Hwrap : i = Py.len ts - 1 -> j = 0).
  { intros ->. subst j. replace (Py.len ts - 1 + 1) with (Py.len ts) by lia.
    apply Z.mod_same. lia. }
  rewrite <- app_assoc in Hplay. cbn [app] in Hplay.
  run E. cbn [status_eqb negb] in E. history E.
  rewrite Hok, Hidle in E.
  destruct (Z.eqb_spec i (Py.len ts - 1)) as [Hlast|Hnot].
  - destruct Hnext as [?|Hlp]; [lia|]. cbn [loop] in Hlp. subst lp.
    cbn [negb] in E. rewrite E0 in E. fold j in E.
    rewrite (getitem_in_range ts j [] Hj) in E. fold (track_at ts j) in *.
    history E. rewrite Hload in E. history E. rewrite Hplay in E.
    conclude r. repeat split; try reflexivity. intros _. now rewrite Hwrap.
  - rewrite E0 in E. fold j in E.
    rewrite (getitem_in_range ts j [] Hj) in E. fold (track_at ts j) in *.
    history E. rewrite Hload in E. history E. rewrite Hplay in E.
    conclude r. repeat split; try reflexivity. intros ?. lia.
Qed.

(** A monitor pass in which the engine refuses the load or the play of the
    next track ends in that exception: the index has moved, the state is
    still [Playing], nothing was printed and the lock is free again. *)
Lemma monitor_cycle_start_fails (pygame : engine) (w : world) (i : Z)
      (msg : string) :
  let ts := tracks (self w) in
  let j := (i + 1) mod Py.len ts in
  let h := calls (trace w) ++ [music_get_busy] in
  _lock (self w) = false ->
  state (self w) = Playing ->
  current_index (self w) = Some i ->
  0 <= i < Py.len ts ->
  i < Py.len ts - 1 \/ loop (self w) = true ->
  fails pygame (calls (trace w)) music_get_busy = None ->
  busy pygame (calls (trace w)) = false ->
  fails pygame h (music_load (track_at ts j)) = Some msg \/
  (fails pygame h (music_load (track_at ts j)) = None /\
   fails pygame (h ++ [music_load (track_at ts j)]) music_play = Some msg) ->
  let r := monitor_cycle pygame w in
  fst r = Raised (pygame_error msg) /\
  printed (trace (snd r)) = printed (trace w) /\
  passes (trace (snd r)) = S (passes (trace w)) /\
  current_index (self (snd r)) = Some j /\
  state (self (snd r)) = Playing /\
  _lock (self (snd r)) = false /\
  _stop_event (self (snd r)) = _stop_event (self w).
Proof.
  destruct w as [[ts lp ci st se lk] tr].
  intros ts' j h Hlk Hst Hci Hi Hnext Hok Hidle Hfail r. outcome r E.
  subst ts' h. cbn [self trace tracks _lock state current_index loop] in *.
  subst lk st ci.
  assert (0 <= j < Py.len ts) as Hj by (apply Z.mod_pos_bound; lia).
  assert (E0 : (Py.len ts =? 0) = false) by (apply Z.eqb_neq; lia).
  assert (Hpasses : forall a b, passes (a ++ b) = (passes a + passes b)%nat).
  { induction a as [|e a IH]; intros b; [reflexivity|].
    destruct e; simpl; now rewrite IH. }
  rewrite <- app_assoc in Hfail. cbn [app] in Hfail.
  run E. cbn [status_eqb negb] in E. history E.
  rewrite Hok, Hidle in E.
  assert (Hfin : (if i =? Py.len ts - 1 then negb lp else false) = false).
  { destruct (Z.eqb_spec i (Py.len ts - 1)); [|reflexivity].
    destruct Hnext as [?|Hlp]; [lia|]. cbn [loop] in Hlp. now subst lp. }
  destruct (Z.eqb_spec i (Py.len ts - 1)) as [Hlast|Hnot];
    [destruct lp; [|discriminate]|];
    cbn [negb] in E; rewrite E0 in E; fold j in E;
    rewrite (getitem_in_range ts j [] Hj) in E; fold (track_at ts j) in *;
    history E;
    (destruct Hfail as [Hload|[Hload Hplay]];
     [rewrite Hload in E
     |rewrite Hload in E; history E; rewrite Hplay in E]);
    conclude r; rewrite !Hpasses; cbn [passes];
    repeat split; try reflexivity; lia.
Qed.

(** C4, as the program has it: a failed engine call inside [_play_current]
    during a monitor pass is not caught.  The program prints nothing about
    it, the lock is released, [current_index] has already been advanced to
    [(i + 1) mod N] and [state] is still [Playing], and [_monitor_playback]
    ends with the engine's exception, at the end of that very pass, however
    many more passes it is allowed. *)
Theorem monitor_failure_ends_loop (pygame : engine) (w : world) (i : Z)
        (msg : string) (n : nat) :
  let ts := tracks (self w) in
  let j := (i + 1) mod Py.len ts in
  let h := calls (trace w) ++ [music_get_busy] in
  _lock (self w) = false ->
  _stop_event (self w) = false ->
  state (self w) = Playing ->
  current_index (self w) = Some i ->
  0 <= i < Py.len ts ->
  i < Py.len ts - 1 \/ loop (self w) = true ->
  fails pygame (calls (trace w)) music_get_busy = None ->
  busy pygame (calls (trace w)) = false ->
  fails pygame h (music_load (track_at ts j)) = Some msg \/
  (fails pygame h (music_load (track_at ts j)) = None /\
   fails pygame (h ++ [music_load (track_at ts j)]) music_play = Some msg) ->
  let r := _monitor_playback pygame (S n) w in
  fst r = Raised (pygame_error msg) /\
  snd r = snd (monitor_cycle pygame w) /\
  printed (trace (snd r)) = printed (trace w) /\
  passes (trace (snd r)) = S (passes (trace w)) /\
  current_index (self (snd r)) = Some j /\
  state (self (snd r)) = Playing /\
  _lock (self (snd r)) = false.
Proof.
  intros ts j h Hlk Hse Hst Hci Hi Hnext Hok Hidle Hfail r.
  destruct (monitor_cycle_start_fails pygame w i msg Hlk Hst Hci Hi Hnext
              Hok Hidle Hfail) as (Hr & Hp & Hn & Hidx & Hplaying & Hl & _).
  assert (E : _monitor_playback pygame (S n) w =
              (Raised (pygame_error msg), snd (monitor_cycle pygame w))).
  { cbn [_monitor_playback]. unfold bind at 1, stop_event_is_set.
    rewrite Hse. unfold bind.
    destruct (monitor_cycle pygame w) as [res w'].
    cbn [fst snd] in *. now subst res. }
  subst r. rewrite E. cbn [fst snd]. repeat split; assumption.
Qed.

(** ** Rejected commands *)

(** C6, as the program has it: [play(i)] with [i] outside [[0, N)], run with
    the lock free, returns with the player unchanged and without any call
    into the engine, after printing one line: on a playlist that has tracks
    the out-of-range report for [i], on the empty playlist the report that
    the playlist is empty. *)
Theorem play_out_of_range (pygame : engine) (w : world) (i : Z) :
  _lock (self w) = false ->
  i < 0 \/ Py.len (tracks (self w)) <= i ->
  let r := play pygame (Some i) w in
  fst r = Returned tt /\
  self (snd r) = self w /\
  calls (trace (snd r)) = calls (trace w) /\
  printed (trace (snd r)) =
    printed (trace w) ++
    [if Py.is_empty (tracks (self w)) then "Playlist is empty."
     else ("Index " ++ Py.str i ++ " out of range.")%string].
Proof.
  destruct w as [[ts lp ci st se lk] tr].
  intros Hlk Hi r. outcome r E.
  cbn [self trace tracks _lock] in *. subst lk.
  run E. destruct ts as [|t ts].
  - cbn [Py.is_empty] in *. conclude r. repeat split; reflexivity.
  - cbn [Py.is_empty] in *.
    destruct (Z.ltb_spec i 0) as [Hneg|Hpos].
    + conclude r. repeat split; reflexivity.
    + destruct (Z.leb_spec (Py.len (t :: ts)) i) as [_|?]; [|lia].
      conclude r. repeat split; reflexivity.
Qed.

(** C7: run with the lock free, [pause()] in a state other than [Playing]
    prints its report and leaves the player as it was, without calling the
    engine; in state [Playing], with an engine that accepts the pause, it
    calls the engine's pause and sets [state = Paused].  [resume()] is the
    same with [Paused] required, the engine's unpause called and
    [state = Playing] set. *)
Theorem pause_resume_only_from_their_state (pygame : engine) (w : world) :
  _lock (self w) = false ->
  (state (self w) <> Playing ->
   let r := pause pygame w in
   fst r = Returned tt /\ self (snd r) = self w /\
   calls (trace (snd r)) = calls (trace w) /\
   printed (trace (snd r)) =
     printed (trace w) ++ ["Nothing is currently playing."]) /\
  (state (self w) = Playing ->
   fails pygame (calls (trace w)) music_pause = None ->
   let r := pause pygame w in
   fst r = Returned tt /\ state (self (snd r)) = Paused /\
   current_index (self (snd r)) = current_index (self w) /\
   calls (trace (snd r)) = calls (trace w) ++ [music_pause] /\
   printed (trace (snd r)) = printed (trace w) ++ ["Paused."]) /\
  (state (self w) <> Paused ->
   let r := resume pygame w in
   fst r = Returned tt /\ self (snd r) = self w /\
   calls (trace (snd r)) = calls (trace w) /\
   printed (trace (snd r)) = printed (trace w) ++ ["Player is not paused."]) /\
  (state (self w) = Paused ->
   fails pygame (calls (trace w)) music_unpause = None ->
   let r := resume pygame w in
   fst r = Returned tt /\ state (self (snd r)) = Playing /\
   current_index (self (snd r)) = current_index (self w) /\
   calls (trace (snd r)) = calls (trace w) ++ [music_unpause] /\
   printed (trace (snd r)) = printed (trace w) ++ ["Resumed."]).
Proof.
  destruct w as [[ts lp ci st se lk] tr].
  intros Hlk. cbn [self _lock] in Hlk. subst lk.
  split; [|split; [|split]].
  - intros Hst r. outcome r E. cbn [self state] in Hst. run E.
    destruct st; try congruence; cbn [status_eqb negb] in E;
      conclude r; repeat split; reflexivity.
  - intros Hst Hok r. outcome r E. cbn [self state trace] in Hst, Hok.
    subst st. run E.
    cbn [status_eqb negb] in E. history E. rewrite Hok in E.
    conclude r. repeat split; reflexivity.
  - intros Hst r. outcome r E. cbn [self state] in Hst. run E.
    destruct st; try congruence; cbn [status_eqb negb] in E;
      conclude r; repeat split; reflexivity.
  - intros Hst Hok r. outcome r E. cbn [self state trace] in Hst, Hok.
    subst st. run E.
    cbn [status_eqb negb] in E. history E. rewrite Hok in E.
    conclude r. repeat split; reflexivity.
Qed.

(** ** Skipping *)

(** Whatever the engine does, [next_track] and [previous_track] leave the
    index one step further, respectively back, around the playlist, and the
    lock free. *)
Lemma skip_moves_index (pygame : engine) (w : world) (i : Z) :
  _lock (self w) = false ->
  current_index (self w) = Some i ->
  0 <= i < Py.len (tracks (self w)) ->
  (let w' := snd (next_track pygame w) in
   current_index (self w') = Some ((i + 1) mod Py.len (tracks (self w))) /\
   tracks (self w') = tracks (self w) /\ _lock (self w') = false) /\
  (let w' := snd (previous_track pygame w) in
   current_index (self w') = Some ((i + -1) mod Py.len (tracks (self w))) /\
   tracks (self w') = tracks (self w) /\ _lock (self w') = false).
Proof.
  destruct w as [[ts lp ci st se lk] tr].
  intros Hlk Hci Hi. cbn [self trace _lock tracks current_index] in Hlk, Hci, Hi.
  subst lk ci.
  assert (E0 : (Py.len ts =? 0) = false) by (apply Z.eqb_neq; lia).
  split; intros w'; cbn [self tracks].
  - assert (0 <= (i + 1) mod Py.len ts < Py.len ts) as Hj
        by (apply Z.mod_pos_bound; lia).
    assert (E : w' = snd (next_track pygame
      {| self := {| tracks := ts; loop := lp; current_index := Some i;
                    state := st; _stop_event := se; _lock := false |};
         trace := tr |})) by reflexivity.
    clearbody w'. run E. rewrite E0 in E.
    rewrite (getitem_in_range ts _ [] Hj) in E.
    match type of E with context [fails pygame ?h ?c] =>
      destruct (fails pygame h c) end;
      [|match type of E with context [fails pygame ?h ?c] =>
          destruct (fails pygame h c) end];
      subst w'; repeat split; reflexivity.
  - assert (0 <= (i + -1) mod Py.len ts < Py.len ts) as Hj
        by (apply Z.mod_pos_bound; lia).
    assert (E : w' = snd (previous_track pygame
      {| self := {| tracks := ts; loop := lp; current_index := Some i;
                    state := st; _stop_event := se; _lock := false |};
         trace := tr |})) by reflexivity.
    clearbody w'. run E. rewrite E0 in E.
    rewrite (getitem_in_range ts _ [] Hj) in E.
    match type of E with context [fails pygame ?h ?c] =>
      destruct (fails pygame h c) end;
      [|match type of E with context [fails pygame ?h ?c] =>
          destruct (fails pygame h c) end];
      subst w'; repeat split; reflexivity.
Qed.

(** C8: from any index of the playlist, with the lock free, [next_track]
    followed by [previous_track] leaves [current_index] where it was, and so
    does [previous_track] followed by [next_track]; this holds for every
    playlist with at least one track (so for N > 1) and whatever the engine
    does with the calls. *)
Theorem next_previous_restore_index (pygame : engine) (w : world) (i : Z) :
  _lock (self w) = false ->
  current_index (self w) = Some i ->
  0 <= i < Py.len (tracks (self w)) ->
  current_index (self (snd (previous_track pygame (snd (next_track pygame w)))))
    = Some i /\
  current_index (self (snd (next_track pygame (snd (previous_track pygame w)))))
    = Some i.
Proof.
  intros Hlk Hci Hi.
  destruct (skip_moves_index pygame w i Hlk Hci Hi)
    as [(Hn & Htn & Hln) (Hp & Htp & Hlp)].
  cbv zeta in *.
  set (N := Py.len (tracks (self w))) in *.
  assert (0 <= (i + 1) mod N < N) as Hjn by (apply Z.mod_pos_bound; lia).
  assert (0 <= (i + -1) mod N < N) as Hjp by (apply Z.mod_pos_bound; lia).
  split.
  - destruct (skip_moves_index pygame (snd (next_track pygame w)) _ Hln Hn)
      as [_ (H & _)]; [rewrite Htn; exact Hjn|].
    cbv zeta in H. rewrite H, Htn. fold N. f_equal.
    rewrite Zplus_mod_idemp_l.
    replace (i + 1 + -1) with i by lia. apply Z.mod_small. lia.
  - destruct (skip_moves_index pygame (snd (previous_track pygame w)) _ Hlp Hp)
      as [(H & _) _]; [rewrite Htp; exact Hjp|].
    cbv zeta in H. rewrite H, Htp. fold N. f_equal.
    rewrite Zplus_mod_idemp_l.
    replace (i + -1 + 1) with i by lia. apply Z.mod_small. lia.
Qed.

(** ** The index invariant *)

Ltac run_goal :=
  cbv [list_tracks play pause resume stop next_track previous_track status
       close monitor_cycle _play_current at_end_without_loop out_of_range
       current_track move_index mixer get_busy with_lock stop_event_is_set
       get_tracks get_loop get_current_index get_state
       set_current_index set_state set_lock set_stop_event print perform
       read update emit bind ret raise
       self trace tracks loop current_index state _stop_event _lock fst snd].

(** Splits on what the next step of a computation depends on, and goes on. *)
Ltac branch :=
  match goal with
  | |- context [Py.is_empty ?l] => destruct (Py.is_empty l) eqn:?
  | |- context [fails ?e ?h ?c] => destruct (fails e h c) eqn:?
  | |- context [busy ?e ?h] => destruct (busy e h) eqn:?
  | |- context [Py.getitem ?l ?i] => destruct (Py.getitem l i) eqn:?
  | |- context [?a <? ?b] => destruct (a <? b) eqn:?
  | |- context [?a <=? ?b] => destruct (a <=? b) eqn:?
  | |- context [?a =? ?b] => destruct (a =? b) eqn:?
  | |- context [status_eqb ?s _] => is_var s; destruct s
  | |- context [negb ?b] => is_var b; destruct b
  | |- context [match ?x with _ => _ end] => is_var x; destruct x
  end; run_goal; cbn [status_eqb negb].

Lemma list_rows_self (ts : list path) (idx : Z) (w : world) :
  self (snd (list_rows idx ts w)) = self w.
Proof.
  revert idx w. induction ts as [|t ts IH]; intros idx w; [reflexivity|].
  cbn [list_rows].
  cbv [bind get_current_index get_state read emit print ret].
  cbn [self trace fst snd].
  destruct (current_index (self w)) as [i|];
    [destruct (idx =? i)|]; cbn [self trace]; now rewrite IH.
Qed.

Lemma index_step_ok (p p' : MP3Player) :
  index_ok p -> index_step p p' -> index_ok p'.
Proof.
  intros [Hnone Hsome] [Hts [Hci|(i & Hci & Hi)]]; unfold index_ok;
    rewrite Hts, Hci.
  - split; assumption.
  - split.
    + split; [discriminate|]. intros E. rewrite E in Hi.
      unfold Py.len in Hi. simpl in Hi. lia.
    + intros k [= <-]. exact Hi.
Qed.

Lemma perform_index_step (pygame : engine) (o : operation) (w : world) :
  index_step (self w) (self (snd (perform pygame o w))).
Proof.
  destruct w as [[ts lp ci st se lk] tr]. unfold index_step.
  destruct o as [| [i|] | | | | | | |].
  1: { cbn [perform]. unfold list_tracks.
       cbv [bind get_tracks read emit print ret]. cbn [self trace tracks].
       destruct (Py.is_empty ts); cbn [snd self];
         [|rewrite list_rows_self]; cbn [self tracks current_index]; auto. }
  all: run_goal; repeat branch; cbn [snd self tracks current_index];
    (split; [reflexivity|]); try (left; reflexivity); right;
    eexists; (split; [reflexivity|]).
  all: pose proof (len_nonneg ts).
  all: try (apply Z.mod_pos_bound;
            match goal with H : (Py.len _ =? 0) = false |- _ =>
              apply Z.eqb_neq in H end; lia).
  all: repeat match goal with
         | H : (_ <? _) = false |- _ => apply Z.ltb_ge in H
         | H : (_ <=? _) = false |- _ => apply Z.leb_gt in H
         end; lia.
Qed.

Lemma new_player_index_ok (d : directory) (lp : bool) :
  index_ok (new_player d lp).
Proof.
  unfold index_ok, new_player. cbn [current_index tracks].
  destruct (find_mp3_files d) as [|t ts]; cbn [Py.is_empty].
  - split; [tauto|discriminate].
  - split; [split; discriminate|].
    intros i [= <-]. rewrite len_cons. pose proof (len_nonneg ts). lia.
Qed.

Lemma init_self (pygame : engine) (d : directory) (lp : bool) :
  self (snd (__init__ pygame d lp)) = new_player d lp.
Proof.
  unfold __init__. cbv [bind mixer emit]. cbn [self trace calls].
  now destruct (fails pygame [] mixer_init).
Qed.

(** C5: [current_index] is [None] exactly when the playlist is empty and is
    otherwise an index in [[0, N)]: this holds of the player that
    [__init__] builds, every operation (list, play, pause, resume, stop,
    next, previous, status, a monitor pass) keeps it, whatever its outcome
    and whatever the engine does, and so it holds after every sequence of
    operations on a constructed player. *)
Theorem index_invariant (pygame : engine) :
  (forall d lp, index_ok (self (snd (__init__ pygame d lp)))) /\
  (forall o w, index_ok (self w) -> index_ok (self (snd (perform pygame o w)))) /\
  (forall d lp os,
      index_ok (self (perform_all pygame os (snd (__init__ pygame d lp))))).
Proof.
  assert (Hinit : forall d lp, index_ok (self (snd (__init__ pygame d lp))))
    by (intros; rewrite init_self; apply new_player_index_ok).
  assert (Hstep : forall o w, index_ok (self w) ->
                              index_ok (self (snd (perform pygame o w))))
    by (intros o w H; exact (index_step_ok _ _ H (perform_index_step pygame o w))).
  split; [exact Hinit|]. split; [exact Hstep|].
  intros d lp os. generalize (Hinit d lp).
  generalize (snd (__init__ pygame d lp)) as w.
  induction os as [|o os IH]; intros w Hw; cbn [perform_all]; [exact Hw|].
  apply IH, Hstep, Hw.
Qed.

Lemma index_invariant_witness :
  index_ok (self (player_at abc true (Some 2) Playing)) /\
  index_ok (self (snd (perform idle_engine op_next
                         (player_at abc true (Some 2) Playing)))).
Proof.
  assert (H : index_ok (self (player_at abc true (Some 2) Playing))).
  { split; [split; discriminate|].
    intros i [= <-]. vm_compute. split; [discriminate|reflexivity]. }
  split; [exact H|].
  exact (proj1 (proj2 (index_invariant idle_engine)) op_next _ H).
Defined.

(** ** The lock *)

Lemma acquires_app (a b : list event) :
  acquires (a ++ b) = acquires a || acquires b.
Proof.
  induction a as [|e a IH]; [reflexivity|]. destruct e; simpl; auto.
Qed.

Lemma list_rows_unlocked (ts : list path) (idx : Z) (w : world) :
  exists evs,
    trace (snd (list_rows idx ts w)) = trace w ++ evs /\
    acquires evs = false /\
    (ts <> [] -> guarded false evs = false).
Proof.
  revert idx w. induction ts as [|t ts IH]; intros idx w.
  - exists []. cbn. rewrite app_nil_r. repeat split. congruence.
  - cbn [list_rows].
    cbv [bind get_current_index get_state read emit print ret].
    cbn [self trace fst snd].
    destruct (current_index (self w)) as [i|];
      [destruct (idx =? i)|]; cbn [self trace];
      match goal with |- context [list_rows ?k ts ?v] =>
        destruct (IH k v) as (evs & -> & Ha & _) end;
      cbn [trace]; repeat rewrite <- app_assoc; cbn [app];
      eexists; (split; [reflexivity|]); cbn [acquires guarded shared];
      (split; [exact Ha|reflexivity]).
Qed.

(** C9, as the program has it: play, pause, resume, stop, next, previous and
    a monitor pass, begun with the lock free, read and write
    [current_index] and [state] only while they hold the lock.  [list] and
    [status] never take the lock: [status] always, and [list] on every
    playlist that has tracks, reads [current_index] without it. *)
Theorem lock_discipline (pygame : engine) (o : operation) (w : world) :
  _lock (self w) = false ->
  exists evs,
    trace (snd (perform pygame o w)) = trace w ++ evs /\
    match o with
    | op_list =>
        acquires evs = false /\
        (tracks (self w) <> [] -> guarded false evs = false)
    | op_status => acquires evs = false /\ guarded false evs = false
    | _ => guarded false evs = true
    end.
Proof.
  destruct w as [[ts lp ci st se lk] tr]. cbn [self _lock trace tracks].
  intros ->.
  destruct o as [| [i|] | | | | | | |].
  1: { cbn [perform]. unfold list_tracks.
       cbv [bind get_tracks read emit print ret]. cbn [self trace tracks].
       destruct ts as [|t ts]; cbn [Py.is_empty snd trace].
       - repeat rewrite <- app_assoc. cbn [app].
         eexists. split; [reflexivity|]. split; [reflexivity|congruence].
       - match goal with |- context [list_rows ?k ?l ?v] =>
           destruct (list_rows_unlocked l k v) as (evs & -> & Ha & Hg) end.
         cbn [trace]. repeat rewrite <- app_assoc. cbn [app].
         eexists. split; [reflexivity|]. cbn [acquires guarded shared negb orb andb].
         split; [exact Ha|]. intros _. apply Hg. discriminate. }
  all: run_goal; repeat branch; cbn [snd trace];
    repeat rewrite <- app_assoc; cbn [app];
    eexists; (split; [reflexivity|]); try split; reflexivity.
Qed.

(** ** The statements at concrete inputs *)

(** Scenario: playlist a, b, c; [play 2] gives index 2, [Playing]. *)
Lemma play_valid_index_witness :
  0 <= 2 < Py.len abc /\
  current_index
    (self (snd (play idle_engine (Some 2) (player_at abc false (Some 0) Stopped))))
    = Some 2 /\
  state
    (self (snd (play idle_engine (Some 2) (player_at abc false (Some 0) Stopped))))
    = Playing.
Proof.
  assert (R : 0 <= 2 < Py.len abc) by (vm_compute; split; [discriminate|reflexivity]).
  split; [exact R|].
  pose proof (play_valid_index idle_engine (player_at abc false (Some 0) Stopped)
                2 eq_refl R (conj eq_refl eq_refl)) as P.
  cbv zeta in P. destruct P as (_ & P1 & P2 & _). split; [exact P1|exact P2].
Defined.

(** Scenario: without loop, at index 2 and playing, an idle engine ends the
    playback: index 2, [Stopped]. *)
Lemma monitor_stops_at_playlist_end_witness :
  state (self (snd (monitor_cycle idle_engine (player_at abc false (Some 2) Playing))))
    = Stopped /\
  current_index
    (self (snd (monitor_cycle idle_engine (player_at abc false (Some 2) Playing))))
    = Some 2.
Proof.
  pose proof (monitor_stops_at_playlist_end idle_engine
                (player_at abc false (Some 2) Playing)
                eq_refl eq_refl eq_refl eq_refl eq_refl eq_refl) as P.
  cbv zeta in P. destruct P as (_ & P1 & P2 & _). split; [exact P1|exact P2].
Defined.

(** Scenario: with loop, at index 2 and playing, an idle engine makes the
    monitor wrap around: index 0, [Playing]. *)
Lemma monitor_advances_witness :
  0 <= 2 < Py.len abc /\
  current_index
    (self (snd (monitor_cycle idle_engine (player_at abc true (Some 2) Playing))))
    = Some 0 /\
  state (self (snd (monitor_cycle idle_engine (player_at abc true (Some 2) Playing))))
    = Playing.
Proof.
  assert (R : 0 <= 2 < Py.len abc) by (vm_compute; split; [discriminate|reflexivity]).
  split; [exact R|].
  pose proof (monitor_advances idle_engine (player_at abc true (Some 2) Playing) 2
                eq_refl eq_refl eq_refl R (or_intror eq_refl) eq_refl eq_refl
                (conj eq_refl eq_refl)) as P.
  cbv zeta in P. destruct P as (_ & P1 & P2 & _). split; [exact P1|exact P2].
Defined.

(** The claim C4 fails: with an engine that cannot load files, the first
    pass of a monitor allowed three passes fails inside [_play_current]
    (the load of track b is the last call); nothing is printed, and the loop
    has ended with the exception after this one pass. *)
Lemma monitor_dies_on_failed_start :
  fst (_monitor_playback unreadable 3 (player_at abc false (Some 0) Playing))
    = Raised (pygame_error "No file") /\
  calls (trace (snd (_monitor_playback unreadable 3
                       (player_at abc false (Some 0) Playing))))
    = [music_get_busy; music_load ["/"; "music"; "b.mp3"]] /\
  printed (trace (snd (_monitor_playback unreadable 3
                         (player_at abc false (Some 0) Playing))))
    = [] /\
  passes (trace (snd (_monitor_playback unreadable 3
                        (player_at abc false (Some 0) Playing))))
    = 1%nat.
Proof. vm_compute. repeat split; reflexivity. Qed.

Lemma monitor_failure_ends_loop_witness :
  0 <= 0 < Py.len abc /\
  fst (_monitor_playback unreadable 3 (player_at abc false (Some 0) Playing))
    = Raised (pygame_error "No file") /\
  current_index
    (self (snd (_monitor_playback unreadable 3
                  (player_at abc false (Some 0) Playing)))) = Some 1 /\
  state
    (self (snd (_monitor_playback unreadable 3
                  (player_at abc false (Some 0) Playing)))) = Playing.
Proof.
  assert (R : 0 <= 0 < Py.len abc) by (vm_compute; split; [discriminate|reflexivity]).
  split; [exact R|].
  pose proof (monitor_failure_ends_loop unreadable
                (player_at abc false (Some 0) Playing) 0 "No file" 2
                eq_refl eq_refl eq_refl eq_refl R (or_introl eq_refl)
                eq_refl eq_refl (or_introl eq_refl)) as P.
  cbv zeta in P. destruct P as (P1 & _ & _ & _ & P2 & P3 & _).
  split; [exact P1|]. split; [exact P2|exact P3].
Defined.

(** The claim C6 fails on the empty playlist: index 0 is outside [[0, 0)],
    and [play(0)] reports the empty playlist, not an index out of range. *)
Lemma play_on_empty_playlist_reports_empty :
  Py.len (tracks (self (player_at [] false None Stopped))) <= 0 /\
  printed (trace (snd (play idle_engine (Some 0) (player_at [] false None Stopped))))
    = ["Playlist is empty."] /\
  printed (trace (snd (play idle_engine (Some 0) (player_at [] false None Stopped))))
    <> [("Index " ++ Py.str 0 ++ " out of range.")%string].
Proof.
  split; [vm_compute; discriminate|]. split; [reflexivity|].
  vm_compute. discriminate.
Qed.

Lemma play_out_of_range_witness :
  Py.len (tracks (self (player_at abc false (Some 0) Stopped))) <= 7 /\
  self (snd (play idle_engine (Some 7) (player_at abc false (Some 0) Stopped)))
    = self (player_at abc false (Some 0) Stopped) /\
  printed (trace (snd (play idle_engine (Some 7)
                         (player_at abc false (Some 0) Stopped))))
    = ["Index 7 out of range."].
Proof.
  assert (R : Py.len (tracks (self (player_at abc false (Some 0) Stopped))) <= 7)
    by (vm_compute; discriminate).
  split; [exact R|].
  pose proof (play_out_of_range idle_engine (player_at abc false (Some 0) Stopped)
                7 eq_refl (or_intror R)) as P.
  cbv zeta in P. destruct P as (_ & P1 & _ & P2). split; [exact P1|exact P2].
Defined.

Lemma pause_resume_only_from_their_state_witness :
  state (self (player_at abc false (Some 1) Stopped)) <> Playing /\
  self (snd (pause idle_engine (player_at abc false (Some 1) Stopped)))
    = self (player_at abc false (Some 1) Stopped) /\
  state (self (snd (resume idle_engine (player_at abc false (Some 1) Paused))))
    = Playing.
Proof.
  assert (N : state (self (player_at abc false (Some 1) Stopped)) <> Playing)
    by discriminate.
  split; [exact N|]. split.
  - pose proof (proj1 (pause_resume_only_from_their_state idle_engine
                         (player_at abc false (Some 1) Stopped) eq_refl) N) as P.
    cbv zeta in P. exact (proj1 (proj2 P)).
  - pose proof (proj2 (proj2 (proj2
                  (pause_resume_only_from_their_state idle_engine
                     (player_at abc false (Some 1) Paused) eq_refl)))
                  eq_refl eq_refl) as P.
    cbv zeta in P. exact (proj1 (proj2 P)).
Defined.

Lemma next_previous_restore_index_witness :
  0 <= 2 < Py.len abc /\
  current_index
    (self (snd (previous_track idle_engine
                  (snd (next_track idle_engine (player_at abc false (Some 2) Paused))))))
    = Some 2.
Proof.
  assert (R : 0 <= 2 < Py.len abc) by (vm_compute; split; [discriminate|reflexivity]).
  split; [exact R|].
  exact (proj1 (next_previous_restore_index idle_engine
                  (player_at abc false (Some 2) Paused) 2 eq_refl eq_refl R)).
Defined.

(** The claim C9 fails: [status] and [list] on a playing player read
    [current_index] (and [state]) without holding the lock, and never take
    it. *)
Lemma status_and_list_read_unlocked :
  guarded false (trace (snd (status (player_at abc false (Some 1) Playing))))
    = false /\
  acquires (trace (snd (status (player_at abc false (Some 1) Playing))))
    = false /\
  guarded false (trace (snd (list_tracks (player_at abc false (Some 1) Playing))))
    = false /\
  acquires (trace (snd (list_tracks (player_at abc false (Some 1) Playing))))
    = false.
Proof. vm_compute. repeat split; reflexivity. Qed.

Lemma lock_discipline_witness :
  _lock (self (player_at abc false (Some 1) Playing)) = false /\
  exists evs,
    trace (snd (pause idle_engine (player_at abc false (Some 1) Playing)))
      = [] ++ evs /\
    guarded false evs = true.
Proof.
  split; [reflexivity|].
  exact (lock_discipline idle_engine op_pause
           (player_at abc false (Some 1) Playing) eq_refl).
Defined.

(** * Further properties of the player *)

(** ** Stopping *)

(** What [stop] does when the engine accepts the call. *)
Lemma stop_outcome (pygame : engine) (w : world) :
  _lock (self w) = false ->
  fails pygame (calls (trace w)) music_stop = None ->
  stop pygame w =
  (Returned tt,
   {| self := {| tracks := tracks (self w); loop := loop (self w);
                 current_index := current_index (self w); state := Stopped;
                 _stop_event := _stop_event (self w); _lock := false |};
      trace := trace w ++ [Acquire; Call music_stop; Access Write f_state;
                           Print "Stopped."; Release] |}).
Proof.
  destruct w as [[ts lp ci st se lk] tr].
  cbn [self trace _lock tracks loop current_index state _stop_event].
  intros -> Hok.
  match goal with |- ?m = _ => remember m as r eqn:E end.
  run E. history E. rewrite Hok in E. history E. exact E.
Qed.

(** X1: [stop], run with the lock free and an engine that accepts the stop,
    ends in [Stopped] from every state, with the index untouched, one stop
    sent to the engine and one line printed; a second [stop] right after
    does the same again and changes nothing in the player. *)
Theorem stop_is_idempotent (pygame : engine) (w : world) :
  _lock (self w) = false ->
  fails pygame (calls (trace w)) music_stop = None ->
  fails pygame (calls (trace w) ++ [music_stop]) music_stop = None ->
  let r1 := stop pygame w in
  let r2 := stop pygame (snd r1) in
  fst r1 = Returned tt /\
  state (self (snd r1)) = Stopped /\
  current_index (self (snd r1)) = current_index (self w) /\
  fst r2 = Returned tt /\
  self (snd r2) = self (snd r1) /\
  calls (trace (snd r2)) = calls (trace w) ++ [music_stop; music_stop] /\
  printed (trace (snd r2)) = printed (trace w) ++ ["Stopped."; "Stopped."].
Proof.
  intros Hlk Hok1 Hok2 r1 r2. subst r2 r1.
  rewrite (stop_outcome pygame w Hlk Hok1). cbn [fst snd].
  rewrite stop_outcome; cbn [self trace _lock]; [|reflexivity|].
  - cbn [fst snd self trace tracks loop current_index state _stop_event].
    repeat rewrite calls_app. repeat rewrite printed_app.
    cbn [calls printed app]. repeat rewrite app_nil_r.
    repeat rewrite <- app_assoc. cbn [app]. repeat split; reflexivity.
  - rewrite calls_app. cbn [calls]. exact Hok2.
Qed.

Lemma stop_is_idempotent_witness :
  state (self (snd (stop idle_engine (player_at abc false (Some 1) Paused))))
    = Stopped /\
  self (snd (stop idle_engine
               (snd (stop idle_engine (player_at abc false (Some 1) Paused)))))
    = self (snd (stop idle_engine (player_at abc false (Some 1) Paused))).
Proof.
  pose proof (stop_is_idempotent idle_engine (player_at abc false (Some 1) Paused)
                eq_refl eq_refl eq_refl) as P.
  cbv zeta in P. destruct P as (_ & P1 & _ & _ & P2 & _). split; [exact P1|exact P2].
Defined.

(** ** When the engine refuses *)

(** X2: when the engine refuses the load or the play that [play(i)] asks
    for ([i] an index of the playlist, lock free), [play] raises the
    engine's error with [current_index] already set to [i], [state] as it
    was, nothing printed and the lock released. *)
Theorem play_failure_moves_index_only (pygame : engine) (w : world) (i : Z)
        (msg : string) :
  let track := track_at (tracks (self w)) i in
  _lock (self w) = false ->
  0 <= i < Py.len (tracks (self w)) ->
  fails pygame (calls (trace w)) (music_load track) = Some msg \/
  (fails pygame (calls (trace w)) (music_load track) = None /\
   fails pygame (calls (trace w) ++ [music_load track]) music_play = Some msg) ->
  let r := play pygame (Some i) w in
  fst r = Raised (pygame_error msg) /\
  current_index (self (snd r)) = Some i /\
  state (self (snd r)) = state (self w) /\
  printed (trace (snd r)) = printed (trace w) /\
  _lock (self (snd r)) = false.
Proof.
  destruct w as [[ts lp ci st se lk] tr].
  intros track Hlk Hi Hfail r. outcome r E. subst track.
  cbn [self trace tracks _lock state] in *. subst lk.
  run E. rewrite (is_empty_in_range ts i Hi) in E.
  destruct (Z.ltb_spec i 0) as [?|_]; [lia|].
  destruct (Z.leb_spec (Py.len ts) i) as [?|_]; [lia|].
  rewrite (getitem_in_range ts i [] Hi) in E. fold (track_at ts i) in *.
  history E.
  destruct Hfail as [Hload|[Hload Hplay]].
  - rewrite Hload in E. conclude r. repeat split; reflexivity.
  - rewrite Hload in E. history E. rewrite Hplay in E.
    conclude r. repeat split; reflexivity.
Qed.

Lemma play_failure_moves_index_only_witness :
  0 <= 2 < Py.len abc /\
  current_index
    (self (snd (play unreadable (Some 2) (player_at abc false (Some 0) Paused))))
    = Some 2 /\
  state (self (snd (play unreadable (Some 2) (player_at abc false (Some 0) Paused))))
    = Paused.
Proof.
  assert (R : 0 <= 2 < Py.len abc) by (vm_compute; split; [discriminate|reflexivity]).
  split; [exact R|].
  pose proof (play_failure_moves_index_only unreadable
                (player_at abc false (Some 0) Paused) 2 "No file"
                eq_refl R (or_introl eq_refl)) as P.
  cbv zeta in P. destruct P as (_ & P1 & P2 & _). split; [exact P1|exact P2].
Defined.

(** X3: when the engine refuses the one call that [pause] (in state
    [Playing]), [resume] (in state [Paused]) or [stop] (in any state)
    makes, the method raises the engine's error, prints nothing and leaves
    the player exactly as it was, lock free. *)
Theorem refused_command_changes_nothing (pygame : engine) (w : world)
        (msg : string) :
  _lock (self w) = false ->
  (state (self w) = Playing ->
   fails pygame (calls (trace w)) music_pause = Some msg ->
   pause pygame w =
   (Raised (pygame_error msg),
    {| self := self w;
       trace := trace w ++ [Acquire; Access Read f_state; Call music_pause;
                            Release] |})) /\
  (state (self w) = Paused ->
   fails pygame (calls (trace w)) music_unpause = Some msg ->
   resume pygame w =
   (Raised (pygame_error msg),
    {| self := self w;
       trace := trace w ++ [Acquire; Access Read f_state; Call music_unpause;
                            Release] |})) /\
  (fails pygame (calls (trace w)) music_stop = Some msg ->
   stop pygame w =
   (Raised (pygame_error msg),
    {| self := self w;
       trace := trace w ++ [Acquire; Call music_stop; Release] |})).
Proof.
  destruct w as [[ts lp ci st se lk] tr].
  cbn [self trace _lock state]. intros ->.
  split; [|split].
  - intros -> Hno.
    match goal with |- ?m = _ => remember m as r eqn:E end.
    run E. cbn [status_eqb negb] in E. history E. rewrite Hno in E.
    history E. exact E.
  - intros -> Hno.
    match goal with |- ?m = _ => remember m as r eqn:E end.
    run E. cbn [status_eqb negb] in E. history E. rewrite Hno in E.
    history E. exact E.
  - intros Hno.
    match goal with |- ?m = _ => remember m as r eqn:E end.
    run E. history E. rewrite Hno in E. history E. exact E.
Qed.

Lemma refused_command_changes_nothing_witness :
  _lock (self (player_at abc false (Some 1) Playing)) = false /\
  self (snd (pause dead_engine (player_at abc false (Some 1) Playing)))
    = self (player_at abc false (Some 1) Playing).
Proof.
  split; [reflexivity|].
  rewrite (proj1 (refused_command_changes_nothing dead_engine
                    (player_at abc false (Some 1) Playing)
                    "mixer not initialized" eq_refl) eq_refl eq_refl).
  reflexivity.
Defined.

(** ** The empty playlist *)

(** X4: on a player without tracks (so without current index), [list],
    [play] with or without an index, [next_track], [previous_track] and
    [status] each print their one report and return; the player is
    unchanged and the engine is not called. *)
Theorem empty_playlist_never_reaches_engine (pygame : engine) (w : world) :
  let reports (r : result unit * world) (line : string) :=
    fst r = Returned tt /\ self (snd r) = self w /\
    calls (trace (snd r)) = calls (trace w) /\
    printed (trace (snd r)) = printed (trace w) ++ [line] in
  tracks (self w) = [] ->
  current_index (self w) = None ->
  _lock (self w) = false ->
  reports (list_tracks w) "No MP3 files found." /\
  (forall index, reports (play pygame index w) "Playlist is empty.") /\
  reports (next_track pygame w) "No tracks available." /\
  reports (previous_track pygame w) "No tracks available." /\
  reports (status w) "No track loaded.".
Proof.
  destruct w as [[ts lp ci st se lk] tr].
  intros reports Hts Hci Hlk. subst reports.
  cbn [self trace tracks current_index _lock] in *. subst ts ci lk.
  cbv beta.
  repeat match goal with
         | |- fst _ = _ /\ _ => fail 1
         | |- _ /\ _ => split
         | |- forall _, _ => intros
         end;
    match goal with |- context [fst ?m] => remember m as r eqn:E end;
    run E; cbn [Py.is_empty] in E; conclude r; repeat split; reflexivity.
Qed.

Lemma empty_playlist_never_reaches_engine_witness :
  tracks (self (player_at [] true None Stopped)) = [] /\
  calls (trace (snd (next_track dead_engine (player_at [] true None Stopped))))
    = [] /\
  printed (trace (snd (play dead_engine (Some 0) (player_at [] true None Stopped))))
    = ["Playlist is empty."].
Proof.
  split; [reflexivity|].
  pose proof (empty_playlist_never_reaches_engine dead_engine
                (player_at [] true None Stopped) eq_refl eq_refl eq_refl) as P.
  cbv zeta in P. destruct P as (_ & P1 & P2 & _).
  split; [exact (proj1 (proj2 (proj2 P2)))|exact (proj2 (proj2 (proj2 (P1 (Some 0)))))].
Defined.

(** ** Listing and status *)

Lemma list_rows_outcome (ts : list path) (idx : Z) (w : world) :
  exists w',
    list_rows idx ts w = (Returned tt, w') /\
    self w' = self w /\
    calls (trace w') = calls (trace w) /\
    exists lines,
      printed (trace w') = printed (trace w) ++ lines /\
      List.length lines = List.length ts /\
      forall (k : nat) (track : path),
        nth_error ts k = Some track ->
        nth_error lines k = Some (row (self w) (idx + Z.of_nat k) track).
Proof.
  revert idx w. induction ts as [|t ts IH]; intros idx w.
  - exists w. cbn [list_rows]. unfold ret. repeat split.
    exists []. rewrite app_nil_r. repeat split.
    intros [|k] track H; discriminate.
  - cbn [list_rows].
    cbv [bind get_current_index get_state read emit print ret].
    cbn [self trace fst snd].
    destruct (current_index (self w)) as [i|] eqn:Hci;
      [destruct (idx =? i) eqn:Hidx|];
      cbn [self trace];
      match goal with |- context [list_rows (idx + 1) ts ?v] =>
        destruct (IH (idx + 1) v)
          as (w' & Hrun & Hself & Hcalls & lines & Hpr & Hlen & Hrows)
      end;
      exists w'; cbn [self trace] in *;
      (split; [exact Hrun|]); (split; [exact Hself|]);
      (split; [rewrite Hcalls; repeat rewrite calls_app; cbn [calls];
               now repeat rewrite app_nil_r|]);
      eexists (_ :: lines);
      (split; [rewrite Hpr; repeat rewrite printed_app; cbn [printed];
               repeat rewrite app_nil_r; rewrite <- app_assoc; reflexivity|]);
      (split; [cbn [List.length]; now rewrite Hlen|]);
      intros [|k] track Hk; cbn [nth_error] in *.
    all: try (injection Hk as <-; unfold row; rewrite Hci, ?Z.add_0_r, ?Hidx;
              cbn [andb]; reflexivity).
    all: replace (idx + Z.of_nat (S k)) with (idx + 1 + Z.of_nat k) by lia;
      exact (Hrows k track Hk).
Qed.

(** X5: [list_tracks] changes nothing in the player and does not call the
    engine.  On the empty playlist it prints one line saying so; otherwise
    it prints one row per track, in playlist order, the row of index [k]
    showing [k] and the track's name, marked with an arrow exactly when
    [k] is the current index and the state is [Playing]. *)
Theorem list_tracks_rows (w : world) :
  let r := list_tracks w in
  fst r = Returned tt /\
  self (snd r) = self w /\
  calls (trace (snd r)) = calls (trace w) /\
  exists lines,
    printed (trace (snd r)) = printed (trace w) ++ lines /\
    (tracks (self w) = [] -> lines = ["No MP3 files found."]) /\
    (tracks (self w) <> [] ->
     List.length lines = List.length (tracks (self w)) /\
     forall (k : nat) (track : path),
       nth_error (tracks (self w)) k = Some track ->
       nth_error lines k = Some (row (self w) (Z.of_nat k) track)).
Proof.
  intros r. subst r. unfold list_tracks.
  cbv [bind get_tracks read emit print ret]. cbn [self trace fst snd].
  destruct (tracks (self w)) as [|t ts] eqn:Hts; cbn [Py.is_empty].
  - cbn [fst snd self trace]. repeat split.
    + rewrite !calls_app. cbn [calls]. now rewrite !app_nil_r.
    + exists ["No MP3 files found."]. repeat split.
      * rewrite !printed_app. cbn [printed]. now rewrite app_nil_r.
      * congruence.
      * congruence.
  - match goal with |- context [list_rows 0 ?l ?v] =>
      destruct (list_rows_outcome l 0 v)
        as (w' & -> & Hself & Hcalls & lines & Hpr & Hlen & Hrows)
    end.
    cbn [fst snd self trace] in *. rewrite Hts in Hlen, Hrows. repeat split.
    + exact Hself.
    + rewrite Hcalls, !calls_app. cbn [calls]. now rewrite !app_nil_r.
    + exists lines. split.
      * rewrite Hpr, !printed_app. cbn [printed]. now rewrite !app_nil_r.
      * split; [discriminate|]. intros _. split; [exact Hlen|].
        intros k track Hk. rewrite (Hrows k track Hk).
        now rewrite Z.add_0_l.
Qed.

(** X6: [status] changes nothing in the player and does not call the
    engine.  Without a current index it prints that no track is loaded;
    with the current index [i] in the playlist it prints the name of track
    [i] and then the state. *)
Theorem status_reports (w : world) :
  (current_index (self w) = None ->
   status w =
   (Returned tt,
    {| self := self w;
       trace := trace w ++ [Access Read f_current_index;
                            Print "No track loaded."] |})) /\
  (forall i track,
      current_index (self w) = Some i ->
      0 <= i < Py.len (tracks (self w)) ->
      track = track_at (tracks (self w)) i ->
      status w =
      (Returned tt,
       {| self := self w;
          trace := trace w ++
                   [Access Read f_current_index; Access Read f_tracks;
                    Access Read f_current_index;
                    Print ("Track: " ++ name track);
                    Access Read f_state;
                    Print ("State: " ++ status_str (state (self w)))] |})).
Proof.
  destruct w as [[ts lp ci st se lk] tr].
  cbn [self trace tracks current_index state]. split.
  - intros ->.
    match goal with |- ?m = _ => remember m as r eqn:E end.
    run E. history E. exact E.
  - intros i track -> Hi ->.
    match goal with |- ?m = _ => remember m as r eqn:E end.
    run E. rewrite (getitem_in_range ts i [] Hi) in E.
    fold (track_at ts i) in E. history E. exact E.
Qed.

Lemma status_reports_witness :
  0 <= 1 < Py.len abc /\
  printed (trace (snd (status (player_at abc false (Some 1) Paused))))
    = ["Track: b.mp3"; "State: paused"].
Proof.
  assert (R : 0 <= 1 < Py.len abc) by (vm_compute; split; [discriminate|reflexivity]).
  split; [exact R|].
  rewrite (proj2 (status_reports (player_at abc false (Some 1) Paused))
                 1 _ eq_refl R eq_refl).
  reflexivity.
Defined.

Lemma list_tracks_rows_witness :
  tracks (self (player_at abc false (Some 1) Playing)) <> [] /\
  exists lines,
    printed (trace (snd (list_tracks (player_at abc false (Some 1) Playing))))
      = [] ++ lines /\
    nth_error lines 1 = Some "-> [1] b.mp3".
Proof.
  assert (N : tracks (self (player_at abc false (Some 1) Playing)) <> [])
    by discriminate.
  split; [exact N|].
  pose proof (list_tracks_rows (player_at abc false (Some 1) Playing)) as P.
  cbv zeta in P. destruct P as (_ & _ & _ & lines & Hpr & _ & Hrows).
  exists lines. split; [exact Hpr|].
  exact (proj2 (Hrows N) 1%nat _ eq_refl).
Defined.

(** ** Skipping and replaying *)

(** X7: [next_track], run with the lock free on a player whose current
    index [i] is in the playlist, with an engine that accepts the load and
    the play, moves to index [(i + 1) mod N], loads and plays that track
    and sets [state = Playing] whatever the state was before; the index
    after the last is [0]. *)
Theorem next_track_always_plays (pygame : engine) (w : world) (i : Z) :
  let ts := tracks (self w) in
  let j := (i + 1) mod Py.len ts in
  _lock (self w) = false ->
  current_index (self w) = Some i ->
  0 <= i < Py.len ts ->
  starts pygame (calls (trace w)) (track_at ts j) ->
  let r := next_track pygame w in
  fst r = Returned tt /\
  current_index (self (snd r)) = Some j /\
  state (self (snd r)) = Playing /\
  calls (trace (snd r)) =
    calls (trace w) ++ [music_load (track_at ts j); music_play] /\
  printed (trace (snd r)) =
    printed (trace w) ++ [("Playing: " ++ name (track_at ts j))%string] /\
  (i < Py.len ts - 1 -> j = i + 1) /\
  (i = Py.len ts - 1 -> j = 0).
Proof.
  destruct w as [[ts lp ci st se lk] tr].
  intros ts' j Hlk Hci Hi [Hload Hplay] r. outcome r E.
  subst ts'. cbn [self trace tracks _lock state current_index] in *.
  subst lk ci.
  assert (0 <= j < Py.len ts) as Hj by (apply Z.mod_pos_bound; lia).
  assert (E0 : (Py.len ts =? 0) = false) by (apply Z.eqb_neq; lia).
  run E. rewrite E0 in E. fold j in E.
  rewrite (getitem_in_range ts j [] Hj) in E. fold (track_at ts j) in *.
  history E. rewrite Hload in E. history E. rewrite Hplay in E.
  conclude r. repeat split; try reflexivity.
  - intros ?. subst j. apply Z.mod_small. lia.
  - intros ->. subst j. replace (Py.len ts - 1 + 1) with (Py.len ts) by lia.
    apply Z.mod_same. lia.
Qed.

Lemma next_track_always_plays_witness :
  0 <= 2 < Py.len abc /\
  current_index
    (self (snd (next_track idle_engine (player_at abc false (Some 2) Paused))))
    = Some 0 /\
  state (self (snd (next_track idle_engine (player_at abc false (Some 2) Paused))))
    = Playing.
Proof.
  assert (R : 0 <= 2 < Py.len abc) by (vm_compute; split; [discriminate|reflexivity]).
  split; [exact R|].
  pose proof (next_track_always_plays idle_engine
                (player_at abc false (Some 2) Paused) 2
                eq_refl eq_refl R (conj eq_refl eq_refl)) as P.
  cbv zeta in P. destruct P as (_ & P1 & P2 & _). split; [exact P1|exact P2].
Defined.

(** X8: [previous_track], under the same conditions, moves to index
    [(i - 1) mod N], loads and plays that track and sets [state = Playing]
    whatever the state was before; the index before [0] is the last,
    [N - 1]. *)
Theorem previous_track_always_plays (pygame : engine) (w : world) (i : Z) :
  let ts := tracks (self w) in
  let j := (i - 1) mod Py.len ts in
  _lock (self w) = false ->
  current_index (self w) = Some i ->
  0 <= i < Py.len ts ->
  starts pygame (calls (trace w)) (track_at ts j) ->
  let r := previous_track pygame w in
  fst r = Returned tt /\
  current_index (self (snd r)) = Some j /\
  state (self (snd r)) = Playing /\
  calls (trace (snd r)) =
    calls (trace w) ++ [music_load (track_at ts j); music_play] /\
  printed (trace (snd r)) =
    printed (trace w) ++ [("Playing: " ++ name (track_at ts j))%string] /\
  (0 < i -> j = i - 1) /\
  (i = 0 -> j = Py.len ts - 1).
Proof.
  destruct w as [[ts lp ci st se lk] tr].
  intros ts' j Hlk Hci Hi [Hload Hplay] r. outcome r E.
  subst ts'. cbn [self trace tracks _lock state current_index] in *.
  subst lk ci.
  assert (0 <= j < Py.len ts) as Hj by (apply Z.mod_pos_bound; lia).
  assert (E0 : (Py.len ts =? 0) = false) by (apply Z.eqb_neq; lia).
  run E. rewrite E0 in E. change (i + -1) with (i - 1) in E. fold j in E.
  rewrite (getitem_in_range ts j [] Hj) in E. fold (track_at ts j) in *.
  history E. rewrite Hload in E. history E. rewrite Hplay in E.
  conclude r. repeat split; try reflexivity.
  - intros ?. subst j. apply Z.mod_small. lia.
  - intros ->. subst j.
    replace (0 - 1) with (Py.len ts - 1 + -1 * Py.len ts) by lia.
    rewrite Z.mod_add by lia. apply Z.mod_small. lia.
Qed.

Lemma previous_track_always_plays_witness :
  0 <= 0 < Py.len abc /\
  current_index
    (self (snd (previous_track idle_engine (player_at abc false (Some 0) Stopped))))
    = Some 2 /\
  state
    (self (snd (previous_track idle_engine (player_at abc false (Some 0) Stopped))))
    = Playing.
Proof.
  assert (R : 0 <= 0 < Py.len abc) by (vm_compute; split; [discriminate|reflexivity]).
  split; [exact R|].
  pose proof (previous_track_always_plays idle_engine
                (player_at abc false (Some 0) Stopped) 0
                eq_refl eq_refl R (conj eq_refl eq_refl)) as P.
  cbv zeta in P. destruct P as (_ & P1 & P2 & _). split; [exact P1|exact P2].
Defined.

(** X9: [play()] without an index, run with the lock free on a player whose
    current index [i] is in the playlist, with an engine that accepts the
    load and the play, starts track [i] again: the index stays, the state
    becomes [Playing], and the engine is asked to load track [i] and to
    play. *)
Theorem play_without_index_replays_current (pygame : engine) (w : world) (i : Z) :
  let track := track_at (tracks (self w)) i in
  _lock (self w) = false ->
  current_index (self w) = Some i ->
  0 <= i < Py.len (tracks (self w)) ->
  starts pygame (calls (trace w)) track ->
  let r := play pygame None w in
  fst r = Returned tt /\
  current_index (self (snd r)) = Some i /\
  state (self (snd r)) = Playing /\
  calls (trace (snd r)) = calls (trace w) ++ [music_load track; music_play] /\
  printed (trace (snd r)) =
    printed (trace w) ++ [("Playing: " ++ name track)%string].
Proof.
  destruct w as [[ts lp ci st se lk] tr].
  intros track Hlk Hci Hi [Hload Hplay] r. outcome r E. subst track.
  cbn [self trace tracks _lock state current_index] in *.
  subst lk ci.
  run E. rewrite (is_empty_in_range ts i Hi) in E.
  rewrite (getitem_in_range ts i [] Hi) in E. fold (track_at ts i) in *.
  history E. rewrite Hload in E. history E. rewrite Hplay in E.
  conclude r. repeat split; reflexivity.
Qed.

Lemma play_without_index_replays_current_witness :
  0 <= 1 < Py.len abc /\
  calls (trace (snd (play idle_engine None (player_at abc false (Some 1) Stopped))))
    = [music_load ["/"; "music"; "b.mp3"]; music_play].
Proof.
  assert (R : 0 <= 1 < Py.len abc) by (vm_compute; split; [discriminate|reflexivity]).
  split; [exact R|].
  pose proof (play_without_index_replays_current idle_engine
                (player_at abc false (Some 1) Stopped) 1
                eq_refl eq_refl R (conj eq_refl eq_refl)) as P.
  cbv zeta in P. destruct P as (_ & _ & _ & P & _). exact P.
Defined.

(** ** The monitor at rest *)

Lemma passes_app (a b : list event) : passes (a ++ b) = (passes a + passes b)%nat.
Proof.
  induction a as [|e a IH]; [reflexivity|]. destruct e; simpl; now rewrite IH.
Qed.

(** A monitor pass outside [Playing] looks at the state and nothing else. *)
Lemma monitor_cycle_not_playing (pygame : engine) (w : world) :
  _lock (self w) = false ->
  state (self w) <> Playing ->
  monitor_cycle pygame w =
  (Returned tt,
   {| self := self w;
      trace := trace w ++ [Sleep; Acquire; Access Read f_state; Release] |}).
Proof.
  destruct w as [[ts lp ci st se lk] tr]. cbn [self trace _lock state].
  intros -> Hst.
  match goal with |- ?m = _ => remember m as r eqn:E end.
  run E. destruct st; try congruence; cbn [status_eqb negb] in E;
    history E; exact E.
Qed.

(** X10: while the state is not [Playing] (stopped or paused) and the stop
    event is not set, the monitor goes round and round without asking the
    engine anything, not even whether it is busy, without printing and
    without changing the player: after any number [n] of passes it is
    still running. *)
Theorem monitor_idles_unless_playing (pygame : engine) (n : nat) (w : world) :
  _lock (self w) = false ->
  _stop_event (self w) = false ->
  state (self w) <> Playing ->
  let r := _monitor_playback pygame n w in
  fst r = Returned Still_running /\
  self (snd r) = self w /\
  calls (trace (snd r)) = calls (trace w) /\
  printed (trace (snd r)) = printed (trace w) /\
  passes (trace (snd r)) = (passes (trace w) + n)%nat.
Proof.
  revert w. induction n as [|n IH]; intros w Hlk Hse Hst r; subst r.
  - cbn [_monitor_playback]. unfold ret. cbn [fst snd].
    repeat split; try reflexivity. lia.
  - assert (E : _monitor_playback pygame (S n) w =
                _monitor_playback pygame n
                  {| self := self w;
                     trace := trace w ++ [Sleep; Acquire; Access Read f_state;
                                          Release] |}).
    { cbn [_monitor_playback]. unfold bind at 1, stop_event_is_set.
      rewrite Hse. unfold bind.
      now rewrite (monitor_cycle_not_playing pygame w Hlk Hst). }
    rewrite E.
    match goal with |- context [_monitor_playback pygame n ?v] =>
      specialize (IH v Hlk Hse Hst); cbv zeta in IH;
      destruct IH as (I1 & I2 & I3 & I4 & I5)
    end.
    cbn [self trace] in *.
    rewrite I1, I2, I3, I4, I5.
    rewrite calls_app, printed_app, passes_app. cbn [calls printed passes].
    rewrite !app_nil_r. repeat split; try reflexivity. lia.
Qed.

Lemma monitor_idles_unless_playing_witness :
  state (self (player_at abc true (Some 1) Paused)) <> Playing /\
  calls (trace (snd (_monitor_playback dead_engine 5
                       (player_at abc true (Some 1) Paused)))) = [] /\
  passes (trace (snd (_monitor_playback dead_engine 5
                        (player_at abc true (Some 1) Paused)))) = 5%nat.
Proof.
  assert (N : state (self (player_at abc true (Some 1) Paused)) <> Playing)
    by discriminate.
  split; [exact N|].
  pose proof (monitor_idles_unless_playing dead_engine 5
                (player_at abc true (Some 1) Paused) eq_refl eq_refl N) as P.
  cbv zeta in P. destruct P as (_ & _ & P1 & _ & P2). split; [exact P1|exact P2].
Defined.

(** X11: a monitor pass that finds [state = Playing] and is told by the
    engine that it is busy does nothing more: the busy query is its only
    call, nothing is printed, and the player is as it was. *)
Theorem monitor_waits_while_busy (pygame : engine) (w : world) :
  _lock (self w) = false ->
  state (self w) = Playing ->
  fails pygame (calls (trace w)) music_get_busy = None ->
  busy pygame (calls (trace w)) = true ->
  monitor_cycle pygame w =
  (Returned tt,
   {| self := self w;
      trace := trace w ++ [Sleep; Acquire; Access Read f_state;
                           Call music_get_busy; Release] |}).
Proof.
  destruct w as [[ts lp ci st se lk] tr]. cbn [self trace _lock state].
  intros -> -> Hok Hbusy.
  match goal with |- ?m = _ => remember m as r eqn:E end.
  run E. cbn [status_eqb negb] in E. history E.
  rewrite Hok, Hbusy in E. history E. exact E.
Qed.

(** X12: when the engine's busy query itself raises during a pass in state
    [Playing], the monitor does not survive it either: however many more
    passes it is allowed, [_monitor_playback] ends with the engine's error
    after this pass, with the player as it was, the lock released and
    nothing printed. *)
Theorem monitor_busy_query_failure_ends_loop (pygame : engine) (w : world)
        (msg : string) (n : nat) :
  _lock (self w) = false ->
  _stop_event (self w) = false ->
  state (self w) = Playing ->
  fails pygame (calls (trace w)) music_get_busy = Some msg ->
  _monitor_playback pygame (S n) w =
  (Raised (pygame_error msg),
   {| self := self w;
      trace := trace w ++ [Sleep; Acquire; Access Read f_state;
                           Call music_get_busy; Release] |}).
Proof.
  destruct w as [[ts lp ci st se lk] tr].
  cbn [self trace _lock state _stop_event].
  intros -> -> -> Hno.
  cbn [_monitor_playback]. unfold bind at 1, stop_event_is_set.
  cbn [self _stop_event]. unfold bind at 1.
  match goal with |- context [monitor_cycle pygame ?v] =>
    remember (monitor_cycle pygame v) as r eqn:E end.
  run E. cbn [status_eqb negb] in E. history E. rewrite Hno in E.
  history E. now subst r.
Qed.

Lemma monitor_waits_while_busy_witness :
  state (self (player_at abc false (Some 1) Playing)) = Playing /\
  self (snd (monitor_cycle
               {| fails := fun _ _ => None; busy := fun _ => true |}
               (player_at abc false (Some 1) Playing)))
    = self (player_at abc false (Some 1) Playing).
Proof.
  split; [reflexivity|].
  rewrite (monitor_waits_while_busy
             {| fails := fun _ _ => None; busy := fun _ => true |}
             (player_at abc false (Some 1) Playing)
             eq_refl eq_refl eq_refl eq_refl).
  reflexivity.
Defined.

Lemma monitor_busy_query_failure_ends_loop_witness :
  state (self (player_at abc false (Some 1) Playing)) = Playing /\
  fst (_monitor_playback dead_engine 4 (player_at abc false (Some 1) Playing))
    = Raised (pygame_error "mixer not initialized").
Proof.
  split; [reflexivity|].
  rewrite (monitor_busy_query_failure_ends_loop dead_engine
             (player_at abc false (Some 1) Playing) "mixer not initialized" 3
             eq_refl eq_refl eq_refl eq_refl).
  reflexivity.
Defined.

(** ** Closing *)

(** X13: [close] sets the stop event before it talks to the engine, so
    whatever the engine does with the stop and the quit, and whether or not
    the lock is held, the next check of the monitor loop leaves the loop
    without a further pass.  [close] changes nothing else in the player: in
    particular [state] is not set to [Stopped]. *)
Theorem close_ends_monitor (pygame : engine) (w : world) (n : nat) :
  let w' := snd (close pygame w) in
  fst (close pygame w) <> Blocked /\
  _stop_event (self w') = true /\
  state (self w') = state (self w) /\
  current_index (self w') = current_index (self w) /\
  tracks (self w') = tracks (self w) /\
  loop (self w') = loop (self w) /\
  _lock (self w') = _lock (self w) /\
  acquires (trace w') = acquires (trace w) /\
  _monitor_playback pygame (S n) w' = (Returned Left_loop, w').
Proof.
  destruct w as [[ts lp ci st se lk] tr]. intros w'. subst w'.
  cbn [self trace tracks loop current_index state _lock].
  remember (close pygame
              {| self := {| tracks := ts; loop := lp; current_index := ci;
                            state := st; _stop_event := se; _lock := lk |};
                 trace := tr |}) as r eqn:Er.
  assert (Hend : forall (x : result unit) (tr' : list event),
             acquires tr' = acquires tr ->
             x <> Blocked ->
             r = (x, {| self := {| tracks := ts; loop := lp;
                                   current_index := ci; state := st;
                                   _stop_event := true; _lock := lk |};
                        trace := tr' |}) ->
             fst r <> Blocked /\
             _stop_event (self (snd r)) = true /\
             state (self (snd r)) = st /\ current_index (self (snd r)) = ci /\
             tracks (self (snd r)) = ts /\ loop (self (snd r)) = lp /\
             _lock (self (snd r)) = lk /\
             acquires (trace (snd r)) = acquires tr /\
             _monitor_playback pygame (S n) (snd r) = (Returned Left_loop, snd r)).
  { intros x tr' Ha Hx ->. cbn [fst snd self trace tracks loop current_index
                                state _stop_event _lock].
    repeat split; assumption || reflexivity. }
  run Er. destruct (fails pygame (calls tr) music_stop).
  - eapply Hend; [| |exact Er]; [|discriminate].
    rewrite acquires_app. cbn [acquires]. apply orb_false_r.
  - run Er.
    match type of Er with context [fails pygame ?h mixer_quit] =>
      destruct (fails pygame h mixer_quit) end;
      (eapply Hend; [| |exact Er]; [|discriminate]);
      rewrite !acquires_app; cbn [acquires]; now rewrite !orb_false_r.
Qed.

(** X14: with an engine that accepts the stop and the quit, [close] returns
    after exactly these two calls, in this order, and prints nothing. *)
Theorem close_stops_then_quits (pygame : engine) (w : world) :
  fails pygame (calls (trace w)) music_stop = None ->
  fails pygame (calls (trace w) ++ [music_stop]) mixer_quit = None ->
  let r := close pygame w in
  fst r = Returned tt /\
  calls (trace (snd r)) = calls (trace w) ++ [music_stop; mixer_quit] /\
  printed (trace (snd r)) = printed (trace w).
Proof.
  destruct w as [[ts lp ci st se lk] tr].
  intros Hstop Hquit r. outcome r E. cbn [self trace] in Hstop, Hquit.
  run E. history E. rewrite Hstop in E. history E. rewrite Hquit in E.
  conclude r. repeat split; reflexivity.
Qed.

Lemma close_stops_then_quits_witness :
  calls (trace (snd (close idle_engine (player_at abc false (Some 0) Playing))))
    = [music_stop; mixer_quit].
Proof.
  pose proof (close_stops_then_quits idle_engine
                (player_at abc false (Some 0) Playing) eq_refl eq_refl) as P.
  cbv zeta in P. exact (proj1 (proj2 P)).
Defined.

(** ** What no operation does *)

(** X15: every operation begun with the lock free ends, by returning or by
    raising, with the lock free again: none waits for the lock, and none
    leaves it held, whatever the engine does. *)
Theorem operations_release_the_lock (pygame : engine) (o : operation) (w : world) :
  _lock (self w) = false ->
  fst (perform pygame o w) <> Blocked /\
  _lock (self (snd (perform pygame o w))) = false.
Proof.
  destruct w as [[ts lp ci st se lk] tr]. cbn [self _lock]. intros ->.
  destruct o as [| [i|] | | | | | | |].
  1: { cbn [perform]. unfold list_tracks.
       cbv [bind get_tracks read emit print ret]. cbn [self trace tracks].
       destruct (Py.is_empty ts); cbn [fst snd self _lock];
         [split; [discriminate|reflexivity]|].
       match goal with |- context [list_rows 0 ?l ?v] =>
         destruct (list_rows_outcome l 0 v) as (w' & -> & Hself & _) end.
       cbn [fst snd]. rewrite Hself. split; [discriminate|reflexivity]. }
  all: run_goal; repeat branch; cbn [fst snd self _lock];
    (split; [discriminate|reflexivity]).
Qed.

Lemma operations_release_the_lock_witness :
  _lock (self (player_at abc false (Some 0) Stopped)) = false /\
  _lock (self (snd (perform unreadable (op_play (Some 1))
                      (player_at abc false (Some 0) Stopped)))) = false.
Proof.
  split; [reflexivity|].
  exact (proj2 (operations_release_the_lock unreadable (op_play (Some 1))
                  (player_at abc false (Some 0) Stopped) eq_refl)).
Defined.

(** X16: no operation changes the playlist, the loop flag or the stop
    event, and none removes anything from the trace: what an operation did
    comes after what was done before. *)
Theorem operations_keep_the_playlist (pygame : engine) (o : operation) (w : world) :
  let w' := snd (perform pygame o w) in
  tracks (self w') = tracks (self w) /\
  loop (self w') = loop (self w) /\
  _stop_event (self w') = _stop_event (self w) /\
  exists evs, trace w' = trace w ++ evs.
Proof.
  destruct w as [[ts lp ci st se lk] tr]. intros w'. subst w'.
  destruct o as [| [i|] | | | | | | |].
  1: { cbn [perform]. unfold list_tracks.
       cbv [bind get_tracks read emit print ret]. cbn [self trace tracks].
       destruct (Py.is_empty ts); cbn [fst snd self trace tracks loop _stop_event].
       - repeat split. rewrite <- app_assoc. eexists. reflexivity.
       - rewrite list_rows_self. cbn [self tracks loop _stop_event].
         repeat split.
         match goal with |- context [list_rows 0 ?l ?v] =>
           destruct (list_rows_unlocked l 0 v) as (evs & -> & _) end.
         cbn [trace]. repeat rewrite <- app_assoc. eexists. reflexivity. }
  all: run_goal; repeat branch;
    cbn [fst snd self trace tracks loop _stop_event];
    repeat split; repeat rewrite <- app_assoc; cbn [app];
    first [eexists; reflexivity | exists []; now rewrite app_nil_r].
Qed.

(** ** Which files are in the playlist *)

Lemma substring_skip (stem s : string) (m : nat) :
  substring (String.length stem) m (stem ++ s) = substring 0 m s.
Proof. induction stem as [|a stem IH]; [reflexivity|exact IH]. Qed.

Lemma substring_all (s : string) : substring 0 (String.length s) s = s.
Proof. induction s as [|a s IH]; [reflexivity|]. simpl. now rewrite IH. Qed.

Lemma substring_split (s : string) (k m : nat) :
  (k + m)%nat = String.length s ->
  s = (substring 0 k s ++ substring k m s)%string.
Proof.
  revert k. induction s as [|a s IH]; intros k H.
  - destruct k, m; try discriminate. reflexivity.
  - destruct k as [|k].
    + simpl in H. subst m. cbn [substring String.append].
      rewrite <- (substring_all (String a s)) at 1. reflexivity.
    + cbn [substring String.append]. f_equal. apply IH.
      simpl in H. lia.
Qed.

Lemma length_append (s t : string) :
  String.length (s ++ t) = (String.length s + String.length t)%nat.
Proof. induction s as [|a s IH]; [reflexivity|]. simpl. now rewrite IH. Qed.

(** [endswith] is the suffix test. *)
Lemma endswith_spec (suffix s : string) :
  Py.endswith suffix s = true <-> exists stem, s = (stem ++ suffix)%string.
Proof.
  unfold Py.endswith. rewrite andb_true_iff, Nat.leb_le, String.eqb_eq. split.
  - intros [Hle Hsub].
    exists (substring 0 (String.length s - String.length suffix) s).
    pose proof (substring_split s (String.length s - String.length suffix)
                  (String.length suffix)) as H.
    rewrite Hsub in H. apply H. lia.
  - intros [stem ->]. rewrite length_append. split; [lia|].
    replace (String.length stem + String.length suffix - String.length suffix)%nat
      with (String.length stem) by lia.
    rewrite substring_skip. apply substring_all.
Qed.

(** X17: a path is in the playlist that [find_mp3_files] builds exactly
    when it is the directory's path followed by the name of one of the
    directory's entries, and this name is some text, possibly empty,
    followed by [.mp3] in these very letters. *)
Theorem playlist_is_the_mp3_entries (d : directory) (p : path) :
  In p (find_mp3_files d) <->
  exists stem, In (stem ++ ".mp3")%string (entries d) /\
               p = location d ++ [(stem ++ ".mp3")%string].
Proof.
  unfold find_mp3_files. split.
  - intros H. apply (Permutation_in _ (sorted_perm _)) in H.
    apply glob_mp3_spec in H. destruct H as (n & Hin & Hend & ->).
    apply endswith_spec in Hend. destruct Hend as [stem ->]. now exists stem.
  - intros (stem & Hin & ->).
    apply (Permutation_in _ (Permutation_sym (sorted_perm _))).
    apply glob_mp3_spec. exists (stem ++ ".mp3")%string.
    repeat split; [exact Hin|]. apply endswith_spec. now exists stem.
Qed.

(** X18: when no two entries of the directory have the same name, no two
    tracks of the playlist are the same, and the playlist is strictly
    ascending: of two different positions, the earlier holds the path
    that is smaller and not equal. *)
Theorem playlist_has_no_duplicates (d : directory) :
  NoDup (entries d) ->
  NoDup (find_mp3_files d) /\
  forall (i j : nat) (p q : path),
    (i < j)%nat ->
    nth_error (find_mp3_files d) i = Some p ->
    nth_error (find_mp3_files d) j = Some q ->
    path_le p q /\ p <> q.
Proof.
  intros Hnd.
  assert (Hdistinct : NoDup (find_mp3_files d)).
  { unfold find_mp3_files.
    apply (Permutation_NoDup (Permutation_sym (sorted_perm _))).
    unfold glob_mp3.
    assert (Hf : NoDup (filter (Py.endswith ".mp3") (entries d)))
      by now apply NoDup_filter.
    induction Hf as [|n l Hn Hl IH]; cbn [map]; constructor; [|exact IH].
    rewrite in_map_iff. intros (m & Hm & Hin).
    apply app_inj_tail in Hm. destruct Hm as [_ ->]. contradiction. }
  split; [exact Hdistinct|].
  intros i j p q Hij Hp Hq. split.
  - apply (ascending_nth (find_mp3_files d) (sorted_sorted (glob_mp3 d)) i j p q);
      [lia|exact Hp|exact Hq].
  - intros <-.
    assert (i = j); [|lia].
    apply (proj1 (NoDup_nth_error _) Hdistinct); [|congruence].
    apply nth_error_Some. congruence.
Qed.

Lemma playlist_has_no_duplicates_witness :
  NoDup (entries music_ba) /\ NoDup (find_mp3_files music_ba).
Proof.
  assert (H : NoDup (entries music_ba)).
  { repeat constructor; cbn; intuition discriminate. }
  split; [exact H|]. exact (proj1 (playlist_has_no_duplicates music_ba H)).
Defined.

(** The playlist has a track exactly when some entry is named [....mp3]. *)
Lemma find_mp3_files_nonempty (d : directory) :
  find_mp3_files d <> [] <->
  exists stem, In (stem ++ ".mp3")%string (entries d).
Proof.
  unfold find_mp3_files. split.
  - intros H. destruct (sorted (glob_mp3 d)) as [|t ts] eqn:E; [contradiction|].
    assert (Hin : In t (glob_mp3 d)).
    { apply (Permutation_in _ (sorted_perm _)). rewrite E. now left. }
    apply glob_mp3_spec in Hin. destruct Hin as (n & Hin & Hend & _).
    apply endswith_spec in Hend. destruct Hend as [stem ->]. now exists stem.
  - intros [stem Hin] E.
    assert (H : In (location d ++ [(stem ++ ".mp3")%string]) (sorted (glob_mp3 d))).
    { apply (Permutation_in _ (Permutation_sym (sorted_perm _))).
      apply glob_mp3_spec. exists (stem ++ ".mp3")%string.
      repeat split; [exact Hin|]. apply endswith_spec. now exists stem. }
    rewrite E in H. contradiction.
Qed.

(** X19: the player that [__init__] builds is stopped, with the lock free
    and the stop event clear.  If some entry of the directory is named
    [....mp3], its current index is [0] and track [0] is the smallest path
    of the playlist; if none is, it has no tracks and no current index. *)
Theorem new_player_starts_at_first_track (d : directory) (lp : bool) :
  let p := new_player d lp in
  state p = Stopped /\ _lock p = false /\ _stop_event p = false /\
  loop p = lp /\
  ((exists stem, In (stem ++ ".mp3")%string (entries d)) ->
   current_index p = Some 0 /\
   exists first, nth_error (tracks p) 0 = Some first /\
                 forall q, In q (tracks p) -> path_le first q) /\
  ((forall stem, ~ In (stem ++ ".mp3")%string (entries d)) ->
   current_index p = None /\ tracks p = []).
Proof.
  intros p. subst p. unfold new_player.
  cbn [state _lock _stop_event loop current_index tracks].
  pose proof (find_mp3_files_nonempty d) as Hne.
  pose proof (sorted_sorted (glob_mp3 d)) as Hs. fold (find_mp3_files d) in Hs.
  destruct (find_mp3_files d) as [|t ts]; cbn [Py.is_empty].
  - repeat split; try reflexivity;
      match goal with H : exists _, _ |- _ => apply Hne in H; contradiction end.
  - repeat split; try reflexivity.
    + exists t. split; [reflexivity|]. intros q [<-|Hq].
      * apply path_leb_refl.
      * apply StronglySorted_inv in Hs. destruct Hs as [_ Hall].
        rewrite Forall_forall in Hall. now apply Hall.
    + exfalso. assert (Hex : t :: ts <> []) by discriminate.
      apply Hne in Hex. destruct Hex as [stem Hin]. now apply H in Hin.
    + exfalso. assert (Hex : t :: ts <> []) by discriminate.
      apply Hne in Hex. destruct Hex as [stem Hin]. now apply H in Hin.
Qed.

Lemma new_player_starts_at_first_track_witness :
  In ("a" ++ ".mp3")%string (entries music_ba) /\
  current_index (new_player music_ba true) = Some 0.
Proof.
  assert (H : In ("a" ++ ".mp3")%string (entries music_ba))
    by (right; left; reflexivity).
  split; [exact H|].
  pose proof (new_player_starts_at_first_track music_ba true) as P.
  cbv zeta in P. destruct P as (_ & _ & _ & _ & P & _).
  exact (proj1 (P (ex_intro _ "a" H))).
Defined.

(** * The prompt *)

Section PromptFacts.

Variable pygame : engine.
Variable strip : string -> string.
Variable split : string -> list string.
Variable lower : string -> string.
Variable int : string -> option Z.

Lemma not_in_actions (a : string) :
  ~ In a actions ->
  (a =? "play")%string = false /\ (a =? "pause")%string = false /\
  (a =? "resume")%string = false /\ (a =? "stop")%string = false /\
  (a =? "next")%string = false /\ (a =? "skip")%string = false /\
  (a =? "prev")%string = false /\ (a =? "previous")%string = false /\
  (a =? "list")%string = false /\ (a =? "status")%string = false /\
  (a =? "quit")%string = false /\ (a =? "exit")%string = false.
Proof.
  intros H. repeat split; apply String.eqb_neq; intros ->; apply H;
    unfold actions; cbn [In]; tauto.
Qed.

(** A blank line does nothing. *)
Lemma blank_turn (text : string) (w : world) :
  strip text = EmptyString ->
  command_turn pygame strip split lower int text w = (Continue, w).
Proof. intros H. unfold command_turn. now rewrite H. Qed.

(** A word that is no action is answered and changes nothing. *)
Lemma unknown_turn (text word : string) (args : list string) (w : world) :
  strip text <> EmptyString ->
  split (strip text) = word :: args ->
  ~ In (lower word) actions ->
  command_turn pygame strip split lower int text w =
  (Continue, {| self := self w; trace := trace w ++ [Print "Unknown command."] |}).
Proof.
  intros Hne Hsplit Hno. unfold command_turn.
  apply String.eqb_neq in Hne. rewrite Hne, Hsplit.
  destruct (not_in_actions _ Hno)
    as (-> & -> & -> & -> & -> & -> & -> & -> & -> & -> & -> & ->).
  reflexivity.
Qed.

End PromptFacts.

(** X20: the prompt reads no further than the line on which its loop ends:
    once the loop has ended on the input typed so far, by a quit, by the
    end of input, by an exception or by waiting for the lock, whatever is
    typed after that changes nothing. *)
Theorem prompt_reads_nothing_after_the_end
        (pygame : engine) (strip : string -> string)
        (split : string -> list string) (lower : string -> string)
        (int : string -> option Z)
        (keys more : list keyboard) (w : world) :
  fst (interactive_loop pygame strip split lower int keys w) <> Waiting ->
  interactive_loop pygame strip split lower int (keys ++ more) w =
  interactive_loop pygame strip split lower int keys w.
Proof.
  unfold interactive_loop.
  generalize (snd (print
    "Commands: play [index], pause, resume, stop, next, prev, list, status, quit"
    w)) as v.
  induction keys as [|k keys IH]; intros v H.
  - cbn in H. congruence.
  - destruct k as [text| |]; cbn [app prompt_loop] in *; try reflexivity.
    destruct (command_turn pygame strip split lower int text v) as [[| |e|] v'];
      try reflexivity.
    now apply IH.
Qed.

Lemma prompt_reads_nothing_after_the_end_witness :
  fst (interactive_loop idle_engine (fun s => s) simple_split (fun s => s)
         simple_int [Line "pause"; Line "quit"] (player_at abc false (Some 0) Playing))
    <> Waiting /\
  interactive_loop idle_engine (fun s => s) simple_split (fun s => s) simple_int
    ([Line "pause"; Line "quit"] ++ [Line "play 1"])
    (player_at abc false (Some 0) Playing) =
  interactive_loop idle_engine (fun s => s) simple_split (fun s => s) simple_int
    [Line "pause"; Line "quit"] (player_at abc false (Some 0) Playing).
Proof.
  assert (H : fst (interactive_loop idle_engine (fun s => s) simple_split
                     (fun s => s) simple_int [Line "pause"; Line "quit"]
                     (player_at abc false (Some 0) Playing)) <> Waiting)
    by (vm_compute; discriminate).
  split; [exact H|].
  exact (prompt_reads_nothing_after_the_end idle_engine (fun s => s) simple_split
           (fun s => s) simple_int [Line "pause"; Line "quit"] [Line "play 1"]
           (player_at abc false (Some 0) Playing) H).
Defined.

(** X21: a line whose first word is, in lower case, [quit] or [exit] ends
    the loop at once: the player is not touched, the engine is not called
    (stopping is left to [close]) and nothing is printed.  The end of the
    input and an interrupt at the prompt end the loop too, after an empty
    line is printed. *)
Theorem quit_and_end_of_input_end_the_loop
        (pygame : engine) (strip : string -> string)
        (split : string -> list string) (lower : string -> string)
        (int : string -> option Z) (rest : list keyboard) (w : world) :
  (forall text word args,
      strip text <> EmptyString ->
      split (strip text) = word :: args ->
      lower word = "quit" \/ lower word = "exit" ->
      prompt_loop pygame strip split lower int (Line text :: rest) w = (Ended, w)) /\
  prompt_loop pygame strip split lower int (EOFError :: rest) w =
    (Ended, {| self := self w; trace := trace w ++ [Print EmptyString] |}) /\
  prompt_loop pygame strip split lower int (KeyboardInterrupt :: rest) w =
    (Ended, {| self := self w; trace := trace w ++ [Print EmptyString] |}).
Proof.
  split; [|split; reflexivity].
  intros text word args Hne Hsplit Hquit.
  cbn [prompt_loop]. unfold command_turn.
  apply String.eqb_neq in Hne. rewrite Hne, Hsplit.
  destruct Hquit as [-> | ->]; reflexivity.
Qed.

Lemma quit_and_end_of_input_end_the_loop_witness :
  prompt_loop dead_engine (fun s => s) simple_split (fun s => s) simple_int
    [Line "exit now"; Line "stop"] (player_at abc false (Some 0) Playing)
  = (Ended, player_at abc false (Some 0) Playing).
Proof.
  apply (proj1 (quit_and_end_of_input_end_the_loop dead_engine (fun s => s)
                  simple_split (fun s => s) simple_int [Line "stop"]
                  (player_at abc false (Some 0) Playing))
           "exit now" "exit" ["now"]).
  - discriminate.
  - reflexivity.
  - right. reflexivity.
Defined.

(** X22: lines that are blank, or whose first word is none of the prompt's
    actions, never reach the player or the engine: after any number of
    them the player is as it was, no call was made, the loop is waiting
    for more input, and every line printed says that the command is
    unknown. *)
Theorem unknown_and_blank_lines_change_nothing
        (pygame : engine) (strip : string -> string)
        (split : string -> list string) (lower : string -> string)
        (int : string -> option Z) (keys : list keyboard) (w : world) :
  Forall (fun k =>
            exists text, k = Line text /\
              (strip text = EmptyString \/
               exists word args, split (strip text) = word :: args /\
                                 ~ In (lower word) actions)) keys ->
  let r := prompt_loop pygame strip split lower int keys w in
  fst r = Waiting /\
  self (snd r) = self w /\
  calls (trace (snd r)) = calls (trace w) /\
  exists lines,
    printed (trace (snd r)) = printed (trace w) ++ lines /\
    Forall (eq "Unknown command.") lines.
Proof.
  intros H. revert w. induction H as [|k keys Hk _ IH]; intros w r; subst r.
  - cbn. repeat split. exists []. now rewrite app_nil_r.
  - destruct Hk as (text & -> & Hk). cbn [prompt_loop].
    destruct (String.eqb_spec (strip text) EmptyString) as [Hblank|Hne].
    + rewrite (blank_turn pygame strip split lower int text w Hblank).
      apply IH.
    + destruct Hk as [Hblank|(word & args & Hsplit & Hno)]; [contradiction|].
      rewrite (unknown_turn pygame strip split lower int text word args w
                 Hne Hsplit Hno).
      specialize (IH {| self := self w;
                        trace := trace w ++ [Print "Unknown command."] |}).
      cbv zeta in IH. cbn [self trace] in IH.
      destruct IH as (I1 & I2 & I3 & lines & I4 & I5).
      rewrite I1, I2, I3, I4, calls_app, printed_app. cbn [calls printed].
      rewrite app_nil_r. repeat split.
      exists ("Unknown command." :: lines). rewrite <- app_assoc.
      split; [reflexivity|]. now constructor.
Qed.

Lemma unknown_and_blank_lines_change_nothing_witness :
  self (snd (prompt_loop dead_engine (fun s => s) simple_split (fun s => s)
               simple_int [Line "louder"] (player_at abc false (Some 0) Playing)))
  = self (player_at abc false (Some 0) Playing).
Proof.
  refine (proj1 (proj2 (unknown_and_blank_lines_change_nothing dead_engine
            (fun s => s) simple_split (fun s => s) simple_int [Line "louder"]
            (player_at abc false (Some 0) Playing) _))).
  constructor; [|constructor].
  exists "louder". split; [reflexivity|]. right.
  exists "louder", []. split; [reflexivity|].
  unfold actions. cbn [In]. intuition discriminate.
Defined.

(** X23: [play] followed by a text that [int] does not accept is not
    rejected with a message: the [ValueError] leaves the loop, before the
    player is touched, and the lines typed after it are never read. *)
Theorem play_with_a_bad_number_leaves_the_loop
        (pygame : engine) (strip : string -> string)
        (split : string -> list string) (lower : string -> string)
        (int : string -> option Z)
        (text word arg : string) (more : list string)
        (rest : list keyboard) (w : world) :
  strip text <> EmptyString ->
  split (strip text) = word :: arg :: more ->
  lower word = "play" ->
  int arg = None ->
  prompt_loop pygame strip split lower int (Line text :: rest) w =
  (Failed ValueError, w).
Proof.
  intros Hne Hsplit Hplay Hint. cbn [prompt_loop]. unfold command_turn.
  apply String.eqb_neq in Hne. rewrite Hne, Hsplit, Hplay, Hint. reflexivity.
Qed.

Lemma play_with_a_bad_number_leaves_the_loop_witness :
  prompt_loop idle_engine (fun s => s) simple_split (fun s => s) simple_int
    [Line "play two"; Line "quit"] (player_at abc false (Some 0) Stopped)
  = (Failed ValueError, player_at abc false (Some 0) Stopped).
Proof.
  apply (play_with_a_bad_number_leaves_the_loop idle_engine (fun s => s)
           simple_split (fun s => s) simple_int "play two" "play" "two" []).
  - discriminate.
  - reflexivity.
  - reflexivity.
  - reflexivity.
Defined.

(** * [main] *)

(** What a [close] that returned has done. *)
Lemma close_returned (pygame : engine) (w w' : world) :
  close pygame w = (Returned tt, w') ->
  _stop_event (self w') = true /\
  calls (trace w') = calls (trace w) ++ [music_stop; mixer_quit].
Proof.
  destruct w as [[ts lp ci st se lk] tr]. intros E.
  run E. destruct (fails pygame (calls tr) music_stop); [discriminate|].
  run E.
  match type of E with context [fails pygame ?h mixer_quit] =>
    destruct (fails pygame h mixer_quit) end; [discriminate|].
  injection E as <-. cbn [self trace _stop_event].
  split; [reflexivity|].
  rewrite !calls_app. cbn [calls]. rewrite <- app_assoc. reflexivity.
Qed.

(** What a run of [main] that went through [finally] has done. *)
Lemma finally_closed (pygame : engine) (x : exit) (w : world) :
  ending (finally pygame x w) = x ->
  (forall e, x <> Uncaught (player_error e)) ->
  x <> Unfinished ->
  exists p,
    player (finally pygame x w) = Some p /\ _stop_event p = true /\
    calls (output (finally pygame x w)) =
      calls (trace w) ++ [music_stop; mixer_quit].
Proof.
  unfold finally, and_then, ended.
  destruct (close pygame w) as [[[]|e|] w'] eqn:E;
    cbn [ending player output]; intros Hx Hne Hun.
  - destruct (close_returned pygame w w' E) as [Hse Hcalls].
    exists (self w'). repeat split; assumption.
  - symmetry in Hx. now apply Hne in Hx.
  - symmetry in Hx. contradiction.
Qed.

(** X24: when [main] ends with exit code 0, or with the [ValueError] of a
    badly typed number, it has closed the player on the way out: the stop
    event is set, and the last two calls into the engine are the stop and
    the quit. *)
Theorem main_closes_the_player
        (pygame : engine) (strip : string -> string)
        (split : string -> list string) (lower : string -> string)
        (int : string -> option Z)
        (directory : path) (disk : on_disk) (lp : bool) (keys : list keyboard) :
  let s := main pygame strip split lower int directory disk lp keys in
  ending s = SystemExit 0 \/ ending s = Uncaught ValueError ->
  exists p cs,
    player s = Some p /\ _stop_event p = true /\
    calls (output s) = cs ++ [music_stop; mixer_quit].
Proof.
  intros s H.
  assert (Es : s = main pygame strip split lower int directory disk lp keys)
    by reflexivity.
  clearbody s. unfold main in Es.
  assert (Hoff : forall x w, s = ended x w ->
                             x <> SystemExit 0 -> x <> Uncaught ValueError ->
                             False).
  { intros x w -> H0 H1. cbn [ending ended] in H. destruct H; contradiction. }
  destruct disk as [| |names];
    try (subst s; cbn [ending] in H; destruct H as [H|H]; discriminate H).
  destruct (__init__ pygame _ lp) as [[[]|e|] w0];
    try (subst s; cbn [ending] in H; destruct H as [H|H]; discriminate H).
  unfold and_then at 1 in Es.
  cbv [get_tracks read emit bind] in Es. cbn [self trace] in Es.
  destruct (Py.is_empty (tracks (self w0)));
    [exfalso; eapply Hoff; [exact Es|discriminate|discriminate]|].
  unfold and_then at 1 in Es.
  destruct (list_tracks _) as [[[]|e|] w2];
    try (exfalso; eapply Hoff; [exact Es|discriminate|discriminate]).
  unfold and_then at 1 in Es.
  cbv [get_current_index read emit bind] in Es. cbn [self trace] in Es.
  unfold and_then at 1 in Es.
  destruct (play pygame _ _) as [[[]|e|] w4];
    try (exfalso; eapply Hoff; [exact Es|discriminate|discriminate]).
  destruct (interactive_loop pygame strip split lower int keys w4)
    as [[|e| |] w5];
    try (exfalso; eapply Hoff; [exact Es|discriminate|discriminate]).
  - subst s.
    assert (He : ending (finally pygame (SystemExit 0) w5) = SystemExit 0).
    { destruct H as [H|H]; [exact H|].
      unfold finally, and_then, ended in H.
      destruct (close pygame w5) as [[[]|e|] w6]; cbn [ending] in H;
        discriminate H. }
    destruct (finally_closed pygame (SystemExit 0) w5 He) as (p & Hp & Hse & Hc);
      try discriminate.
    exists p, (calls (trace w5)). repeat split; assumption.
  - subst s.
    assert (Hv : e = ValueError).
    { unfold finally, and_then, ended in H.
      destruct (close pygame w5) as [[[]|e'|] w6]; cbn [ending] in H;
        destruct H as [H|H]; congruence. }
    subst e.
    assert (He : ending (finally pygame (Uncaught ValueError) w5)
                 = Uncaught ValueError).
    { destruct H as [H|H]; [|exact H].
      unfold finally, and_then, ended in H.
      destruct (close pygame w5) as [[[]|e|] w6]; cbn [ending] in H;
        discriminate H. }
    destruct (finally_closed pygame (Uncaught ValueError) w5 He)
      as (p & Hp & Hse & Hc); try discriminate.
    exists p, (calls (trace w5)). repeat split; assumption.
Qed.

Lemma main_closes_the_player_witness :
  ending (main idle_engine (fun s => s) simple_split (fun s => s) simple_int
            ["/"; "music"] (Dir ["b.mp3"; "a.mp3"]) false
            [Line "play 1"; Line "quit"]) = SystemExit 0 /\
  exists p cs,
    player (main idle_engine (fun s => s) simple_split (fun s => s) simple_int
              ["/"; "music"] (Dir ["b.mp3"; "a.mp3"]) false
              [Line "play 1"; Line "quit"]) = Some p /\
    _stop_event p = true /\
    calls (output (main idle_engine (fun s => s) simple_split (fun s => s)
                     simple_int ["/"; "music"] (Dir ["b.mp3"; "a.mp3"]) false
                     [Line "play 1"; Line "quit"]))
      = cs ++ [music_stop; mixer_quit].
Proof.
  assert (H : ending (main idle_engine (fun s => s) simple_split (fun s => s)
                        simple_int ["/"; "music"] (Dir ["b.mp3"; "a.mp3"]) false
                        [Line "play 1"; Line "quit"]) = SystemExit 0)
    by reflexivity.
  split; [exact H|].
  exact (main_closes_the_player idle_engine (fun s => s) simple_split
           (fun s => s) simple_int ["/"; "music"] (Dir ["b.mp3"; "a.mp3"]) false
           [Line "play 1"; Line "quit"] (or_introl H)).
Defined.

(** X25: [main] exits with code 1 in exactly two situations: nothing, or
    something that is no directory, is found at the path, and then no
    player is built and the engine is never called; or the engine
    initialises and the directory holds no [.mp3] entry.  Any other exit
    code is 0. *)
Theorem main_exit_codes
        (pygame : engine) (strip : string -> string)
        (split : string -> list string) (lower : string -> string)
        (int : string -> option Z)
        (directory : path) (disk : on_disk) (lp : bool) (keys : list keyboard) :
  let s := main pygame strip split lower int directory disk lp keys in
  (forall c, ending s = SystemExit c -> c = 0 \/ c = 1) /\
  (ending s = SystemExit 1 <->
   (forall names, disk <> Dir names) \/
   (exists names,
       disk = Dir names /\
       fails pygame [] mixer_init = None /\
       find_mp3_files {| location := directory; entries := names |} = [])) /\
  ((forall names, disk <> Dir names) ->
   player s = None /\ calls (output s) = []).
Proof.
  intros s.
  assert (Es : s = main pygame strip split lower int directory disk lp keys)
    by reflexivity.
  clearbody s. unfold main in Es.
  destruct disk as [| |names].
  1, 2: subst s; cbn [ending player output calls]; split;
    [intros c [= <-]; now right|];
    (split; [split; [intros _; left; intros names; discriminate|reflexivity]|]);
    intros _; split; reflexivity.
  unfold __init__ in Es. cbv [bind mixer emit] in Es. cbn [self trace calls] in Es.
  destruct (fails pygame [] mixer_init) as [msg|] eqn:Hinit.
  { subst s. cbn [ending]. split; [discriminate|]. split.
    - split; [discriminate|].
      intros [H|(names' & _ & H & _)]; [now destruct (H names)|discriminate].
    - intros H. now destruct (H names). }
  unfold and_then at 1 in Es.
  cbv [get_tracks read emit bind] in Es. cbn [self trace] in Es.
  unfold new_player in Es at 1. cbn [tracks] in Es.
  destruct (find_mp3_files {| location := directory; entries := names |})
    as [|t ts] eqn:Hfind; cbn [Py.is_empty] in Es.
  { subst s. cbn [ending ended]. split; [intros c [= <-]; now right|]. split.
    - split; [|reflexivity]. intros _. right. now exists names.
    - intros H. now destruct (H names). }
  assert (Hzero : forall c, ending s = SystemExit c -> c = 0).
  { intros c Hc.
    unfold and_then at 1 in Es.
    destruct (list_tracks _) as [[[]|e|] w2];
      try (subst s; discriminate Hc).
    unfold and_then at 1 in Es.
    cbv [get_current_index read emit bind] in Es. cbn [self trace] in Es.
    unfold and_then at 1 in Es.
    destruct (play pygame _ _) as [[[]|e|] w4];
      try (subst s; discriminate Hc).
    destruct (interactive_loop pygame strip split lower int keys w4)
      as [[|e| |] w5];
      try (subst s; discriminate Hc);
      subst s; unfold finally, and_then, ended in Hc;
      destruct (close pygame w5) as [[[]|e'|] w6]; cbn [ending] in Hc;
      congruence. }
  split; [intros c Hc; left; now apply Hzero|]. split.
  - split.
    + intros H. apply Hzero in H. discriminate.
    + intros [H|(names' & [= <-] & _ & H)]; [now destruct (H names)|].
      rewrite Hfind in H. discriminate.
  - intros H. now destruct (H names).
Qed.

Lemma main_exit_codes_witness :
  ending (main dead_engine (fun s => s) simple_split (fun s => s) simple_int
            ["/"; "nowhere"] Missing true [Line "quit"]) = SystemExit 1.
Proof.
  apply (proj2 (proj1 (proj2 (main_exit_codes dead_engine (fun s => s)
           simple_split (fun s => s) simple_int ["/"; "nowhere"] Missing true
           [Line "quit"])))).
  left. intros names. discriminate.
Defined.

(** X26: in a directory without [.mp3] entries, with an engine that
    initialises, [main] exits with code 1 after building the player:
    the engine was initialised and the monitor started, and [main] leaves
    without [close]: the stop event is not set and the engine is neither
    stopped nor quit. *)
Theorem main_without_tracks_does_not_close
        (pygame : engine) (strip : string -> string)
        (split : string -> list string) (lower : string -> string)
        (int : string -> option Z)
        (directory : path) (names : list string) (lp : bool)
        (keys : list keyboard) :
  fails pygame [] mixer_init = None ->
  find_mp3_files {| location := directory; entries := names |} = [] ->
  main pygame strip split lower int directory (Dir names) lp keys =
  {| ending := SystemExit 1;
     player := Some {| tracks := []; loop := lp; current_index := None;
                       state := Stopped; _stop_event := false; _lock := false |};
     output := [Call mixer_init; StartMonitor; Access Read f_tracks;
                Print "No MP3 files found in the specified directory."] |}.
Proof.
  intros Hinit Hfind. unfold main, __init__.
  cbv [bind mixer emit]. cbn [self trace calls]. rewrite Hinit.
  unfold and_then at 1. cbv [get_tracks read emit bind]. cbn [self trace].
  unfold new_player. rewrite Hfind. reflexivity.
Qed.

Lemma main_without_tracks_does_not_close_witness :
  ending (main idle_engine (fun s => s) simple_split (fun s => s) simple_int
            ["/"; "music"] (Dir ["cover.jpg"; "song.MP3"]) false [Line "quit"])
  = SystemExit 1.
Proof.
  rewrite (main_without_tracks_does_not_close idle_engine (fun s => s)
             simple_split (fun s => s) simple_int ["/"; "music"]
             ["cover.jpg"; "song.MP3"] false [Line "quit"] eq_refl eq_refl).
  reflexivity.
Defined.

(** X27: when the engine refuses to load the first track, the [play] with
    which [main] starts raises before the [try] is entered: the engine's
    error leaves [main], and the player is not closed: the stop event is
    not set, and the refused load is the last call into the engine. *)
Theorem main_first_play_failure_is_not_cleaned_up
        (pygame : engine) (strip : string -> string)
        (split : string -> list string) (lower : string -> string)
        (int : string -> option Z)
        (directory : path) (names : list string) (lp : bool)
        (keys : list keyboard) (first : path) (others : list path)
        (msg : string) :
  fails pygame [] mixer_init = None ->
  find_mp3_files {| location := directory; entries := names |} = first :: others ->
  fails pygame [mixer_init] (music_load first) = Some msg ->
  let s := main pygame strip split lower int directory (Dir names) lp keys in
  ending s = Uncaught (player_error (pygame_error msg)) /\
  calls (output s) = [mixer_init; music_load first] /\
  exists p, player s = Some p /\ _stop_event p = false /\ state p = Stopped.
Proof.
  intros Hinit Hfind Hload s.
  assert (Es : s = main pygame strip split lower int directory (Dir names) lp keys)
    by reflexivity.
  clearbody s. unfold main, __init__ in Es.
  cbv [bind mixer emit] in Es. cbn [self trace calls] in Es. rewrite Hinit in Es.
  unfold and_then at 1 in Es. cbv [get_tracks read emit bind] in Es.
  cbn [self trace] in Es.
  unfold new_player in Es. rewrite Hfind in Es.
  cbn [tracks Py.is_empty] in Es.
  unfold list_tracks in Es. cbv [bind get_tracks read emit] in Es.
  cbn [self trace tracks Py.is_empty] in Es.
  match type of Es with context [list_rows 0 ?l ?v] =>
    destruct (list_rows_outcome l 0 v) as (w2 & Hrun & Hself & Hcalls & _)
  end.
  rewrite Hrun in Es. unfold and_then at 1 in Es.
  unfold and_then at 1 in Es.
  cbv [get_current_index read emit bind] in Es. cbn [self trace] in Es.
  rewrite Hself in Es. cbn [self current_index] in Es.
  destruct w2 as [[ts2 lp2 ci2 st2 se2 lk2] tr2].
  cbn [self trace] in Hself, Hcalls, Es. injection Hself as -> -> -> -> -> ->.
  rewrite !calls_app in Hcalls. cbn [calls app] in Hcalls.
  remember (play pygame (Some 0) _) as r eqn:Er in Es.
  assert (Hrange : 0 <= 0 < Py.len (first :: others))
    by (rewrite len_cons; pose proof (len_nonneg others); lia).
  run Er. cbn [Py.is_empty] in Er. run Er.
  change (0 <? 0) with false in Er. run Er.
  destruct (Z.leb_spec (Py.len (first :: others)) 0) as [Hbad|_]; [lia|].
  run Er. rewrite (getitem_in_range (first :: others) 0 [] Hrange) in Er.
  cbn [Z.to_nat nth] in Er. run Er. history Er.
  cbn [calls app] in Hcalls. rewrite Hcalls in Er. cbn [app] in Er.
  rewrite Hload in Er.
  subst r. unfold and_then in Es. subst s.
  cbn [ended ending player output self trace _stop_event state].
  split; [reflexivity|]. split.
  - rewrite !calls_app. cbn [calls]. rewrite Hcalls. reflexivity.
  - eexists. repeat split.
Qed.

Lemma main_first_play_failure_is_not_cleaned_up_witness :
  ending (main unreadable (fun s => s) simple_split (fun s => s) simple_int
            ["/"; "music"] (Dir ["b.mp3"; "a.mp3"]) false [Line "quit"])
  = Uncaught (player_error (pygame_error "No file")).
Proof.
  pose proof (main_first_play_failure_is_not_cleaned_up unreadable (fun s => s)
                simple_split (fun s => s) simple_int ["/"; "music"]
                ["b.mp3"; "a.mp3"] false [Line "quit"]
                ["/"; "music"; "a.mp3"] [["/"; "music"; "b.mp3"]] "No file"
                eq_refl eq_refl eq_refl) as P.
  cbv zeta in P. exact (proj1 P).
Defined.

(** * Operations in sequence *)

(** X28: from [Playing], [pause] followed by [resume], with the lock free
    and an engine that accepts both calls, brings the player back exactly
    as it was, having called the engine's pause and then its unpause. *)
Theorem pause_then_resume_restores (pygame : engine) (w : world) :
  _lock (self w) = false ->
  state (self w) = Playing ->
  fails pygame (calls (trace w)) music_pause = None ->
  fails pygame (calls (trace w) ++ [music_pause]) music_unpause = None ->
  let r1 := pause pygame w in
  let r2 := resume pygame (snd r1) in
  fst r1 = Returned tt /\ fst r2 = Returned tt /\
  state (self (snd r1)) = Paused /\
  self (snd r2) = self w /\
  calls (trace (snd r2)) = calls (trace w) ++ [music_pause; music_unpause] /\
  printed (trace (snd r2)) = printed (trace w) ++ ["Paused."; "Resumed."].
Proof.
  destruct w as [[ts lp ci st se lk] tr].
  intros Hlk Hst Hp Hu r1 r2.
  cbn [self trace _lock state] in Hlk, Hst, Hp, Hu. subst lk st.
  assert (E1 : r1 = pause pygame
            {| self := {| tracks := ts; loop := lp; current_index := ci;
                          state := Playing; _stop_event := se; _lock := false |};
               trace := tr |}) by reflexivity.
  run E1. cbn [status_eqb negb] in E1. history E1. rewrite Hp in E1.
  assert (E2 : r2 = resume pygame (snd r1)) by reflexivity.
  clearbody r2. clearbody r1. subst r1. cbn [snd] in E2.
  run E2. cbn [status_eqb negb] in E2. history E2. rewrite Hu in E2.
  subst r2.
  cbn [fst snd self trace tracks loop current_index state _stop_event _lock].
  repeat rewrite calls_app. repeat rewrite printed_app.
  cbn [calls printed app]. repeat rewrite app_nil_r.
  repeat rewrite <- app_assoc. cbn [app]. repeat split; reflexivity.
Qed.

Lemma pause_then_resume_restores_witness :
  state (self (player_at abc false (Some 1) Playing)) = Playing /\
  self (snd (resume idle_engine
               (snd (pause idle_engine (player_at abc false (Some 1) Playing)))))
    = self (player_at abc false (Some 1) Playing).
Proof.
  split; [reflexivity|].
  pose proof (pause_then_resume_restores idle_engine
                (player_at abc false (Some 1) Playing)
                eq_refl eq_refl eq_refl eq_refl) as P.
  cbv zeta in P. destruct P as (_ & _ & _ & P & _). exact P.
Defined.

(** ** The monitor through the playlist *)

(** With an engine that is never busy and accepts everything, a pass in
    state [Playing] that is not at the end of a playlist without loop
    moves on to the next track and announces it. *)
Lemma idle_cycle_advances (pygame : engine) (w : world) (i : Z) :
  always_idle pygame ->
  _lock (self w) = false ->
  state (self w) = Playing ->
  current_index (self w) = Some i ->
  0 <= i < Py.len (tracks (self w)) ->
  i < Py.len (tracks (self w)) - 1 \/ loop (self w) = true ->
  exists evs,
    monitor_cycle pygame w =
    (Returned tt,
     {| self := {| tracks := tracks (self w); loop := loop (self w);
                   current_index := Some ((i + 1) mod Py.len (tracks (self w)));
                   state := Playing;
                   _stop_event := _stop_event (self w); _lock := false |};
        trace := trace w ++ evs |}) /\
    printed evs =
      [announced (track_at (tracks (self w))
                           ((i + 1) mod Py.len (tracks (self w))))] /\
    passes evs = 1%nat.
Proof.
  destruct w as [[ts lp ci st se lk] tr].
  cbn [self trace tracks loop current_index state _stop_event _lock].
  intros [Hok Hidle] -> -> -> Hi Hnext.
  set (j := (i + 1) mod Py.len ts).
  assert (0 <= j < Py.len ts) as Hj by (apply Z.mod_pos_bound; lia).
  assert (E0 : (Py.len ts =? 0) = false) by (apply Z.eqb_neq; lia).
  match goal with |- exists _, ?m = _ /\ _ => remember m as r eqn:E end.
  run E. cbn [status_eqb negb] in E. rewrite Hok, Hidle in E.
  destruct (Z.eqb_spec i (Py.len ts - 1)) as [Hlast|Hnot];
    [destruct Hnext as [?|Hlp]; [lia|]; subst lp; cbn [negb] in E|];
    rewrite E0 in E; fold j in E;
    rewrite (getitem_in_range ts j [] Hj) in E; fold (track_at ts j) in E;
    rewrite !Hok in E; repeat rewrite <- app_assoc in E; cbn [app] in E;
    eexists; (split; [exact E|]); split; reflexivity.
Qed.

(** The same pass at the end of a playlist without loop stops. *)
Lemma idle_cycle_stops (pygame : engine) (w : world) :
  always_idle pygame ->
  _lock (self w) = false ->
  state (self w) = Playing ->
  current_index (self w) = Some (Py.len (tracks (self w)) - 1) ->
  loop (self w) = false ->
  monitor_cycle pygame w =
  (Returned tt,
   {| self := {| tracks := tracks (self w); loop := false;
                 current_index := Some (Py.len (tracks (self w)) - 1);
                 state := Stopped;
                 _stop_event := _stop_event (self w); _lock := false |};
      trace := trace w ++
               [Sleep; Acquire; Access Read f_state; Call music_get_busy;
                Access Read f_current_index; Access Read f_current_index;
                Access Read f_tracks; Access Read f_loop;
                Access Write f_state; Release] |}).
Proof.
  destruct w as [[ts lp ci st se lk] tr].
  cbn [self trace tracks loop current_index state _stop_event _lock].
  intros [Hok Hidle] -> -> -> ->.
  match goal with |- ?m = _ => remember m as r eqn:E end.
  run E. cbn [status_eqb negb] in E. rewrite Hok, Hidle in E.
  rewrite Z.eqb_refl in E. cbn [negb] in E.
  repeat rewrite <- app_assoc in E. cbn [app] in E. exact E.
Qed.

Lemma skipn_track_at (ts : list path) (i : Z) :
  0 <= i < Py.len ts ->
  skipn (Z.to_nat i) ts = track_at ts i :: skipn (Z.to_nat (i + 1)) ts.
Proof.
  intros Hi. unfold track_at.
  replace (Z.to_nat (i + 1)) with (S (Z.to_nat i)) by lia.
  assert (Hn : (Z.to_nat i < List.length ts)%nat) by (unfold Py.len in Hi; lia).
  revert Hn. generalize (Z.to_nat i) as n. clear Hi.
  induction ts as [|t ts IH]; intros n Hn; [simpl in Hn; lia|].
  destruct n as [|n]; [reflexivity|].
  cbn [skipn nth]. apply IH. simpl in Hn. lia.
Qed.

(** X29: without loop, with an engine that is never busy and accepts
    everything, the monitor takes a playing player from index [i] through
    the rest of the playlist: after [N - i] passes every later track has
    been announced, in playlist order, the index is the last one, and the
    state is [Stopped]; the loop itself is still running. *)
Theorem monitor_plays_to_the_end (pygame : engine) (w : world) (i : Z) :
  let ts := tracks (self w) in
  always_idle pygame ->
  _lock (self w) = false ->
  _stop_event (self w) = false ->
  state (self w) = Playing ->
  loop (self w) = false ->
  current_index (self w) = Some i ->
  0 <= i < Py.len ts ->
  let r := _monitor_playback pygame (Z.to_nat (Py.len ts - i)) w in
  fst r = Returned Still_running /\
  state (self (snd r)) = Stopped /\
  current_index (self (snd r)) = Some (Py.len ts - 1) /\
  printed (trace (snd r)) =
    printed (trace w) ++ map announced (skipn (Z.to_nat (i + 1)) ts).
Proof.
  intros ts Hidle Hlk Hse Hst Hlp Hci Hi r. subst r ts.
  remember (Z.to_nat (Py.len (tracks (self w)) - 1 - i)) as k eqn:Hk.
  replace (Z.to_nat (Py.len (tracks (self w)) - i)) with (S k) by lia.
  revert w i Hlk Hse Hst Hlp Hci Hi Hk.
  induction k as [|k IH]; intros w i Hlk Hse Hst Hlp Hci Hi Hk.
  - assert (i = Py.len (tracks (self w)) - 1) as -> by lia.
    assert (E : _monitor_playback pygame 1 w =
                (Returned Still_running, snd (monitor_cycle pygame w))).
    { cbn [_monitor_playback]. unfold bind at 1, stop_event_is_set.
      rewrite Hse. unfold bind.
      now rewrite (idle_cycle_stops pygame w Hidle Hlk Hst Hci Hlp). }
    rewrite E, (idle_cycle_stops pygame w Hidle Hlk Hst Hci Hlp).
    cbn [fst snd self trace state current_index].
    repeat split.
    replace (Z.to_nat (Py.len (tracks (self w)) - 1 + 1))
      with (List.length (tracks (self w))) by (unfold Py.len; lia).
    rewrite skipn_all, printed_app. cbn [printed map]. now rewrite app_nil_r.
  - destruct (idle_cycle_advances pygame w i Hidle Hlk Hst Hci Hi)
      as (evs & Hrun & Hpr & _); [left; lia|].
    assert (Hmod : (i + 1) mod Py.len (tracks (self w)) = i + 1)
      by (apply Z.mod_small; lia).
    rewrite Hmod in Hrun, Hpr. rewrite Hse in Hrun.
    assert (Hstep : forall n,
               _monitor_playback pygame (S n) w =
               _monitor_playback pygame n
                 {| self := {| tracks := tracks (self w); loop := loop (self w);
                               current_index := Some (i + 1); state := Playing;
                               _stop_event := false;
                               _lock := false |};
                    trace := trace w ++ evs |}).
    { intros n. cbn [_monitor_playback]. unfold bind at 1, stop_event_is_set.
      rewrite Hse. unfold bind. now rewrite Hrun. }
    rewrite Hstep.
    match goal with |- context [_monitor_playback pygame (S k) ?v] =>
      specialize (IH v (i + 1)) end.
    cbn [self trace tracks loop current_index state _stop_event _lock] in IH.
    destruct IH as (I1 & I2 & I3 & I4);
      try reflexivity; try assumption; try lia.
    rewrite I1, I2, I3, I4. repeat split.
    rewrite printed_app, Hpr, <- app_assoc.
    rewrite (skipn_track_at (tracks (self w)) (i + 1)) by lia.
    reflexivity.
Qed.

Lemma monitor_plays_to_the_end_witness :
  0 <= 0 < Py.len abc /\
  state (self (snd (_monitor_playback idle_engine 3
                      (player_at abc false (Some 0) Playing)))) = Stopped /\
  printed (trace (snd (_monitor_playback idle_engine 3
                         (player_at abc false (Some 0) Playing))))
    = ["Playing: b.mp3"; "Playing: c.mp3"].
Proof.
  assert (R : 0 <= 0 < Py.len abc) by (vm_compute; split; [discriminate|reflexivity]).
  split; [exact R|].
  pose proof (monitor_plays_to_the_end idle_engine
                (player_at abc false (Some 0) Playing) 0
                (conj (fun _ _ => eq_refl) (fun _ => eq_refl))
                eq_refl eq_refl eq_refl eq_refl eq_refl R) as P.
  cbv zeta in P. destruct P as (_ & P1 & _ & P2). split; [exact P1|exact P2].
Defined.

(** X30: with loop, and the same engine, the monitor never stops a playing
    player: after any number [n] of passes the state is [Playing] and the
    index has gone [n] steps round the playlist, to [(i + n) mod N]. *)
Theorem monitor_loops_round (pygame : engine) (n : nat) (w : world) (i : Z) :
  let ts := tracks (self w) in
  always_idle pygame ->
  _lock (self w) = false ->
  _stop_event (self w) = false ->
  state (self w) = Playing ->
  loop (self w) = true ->
  current_index (self w) = Some i ->
  0 <= i < Py.len ts ->
  let r := _monitor_playback pygame n w in
  fst r = Returned Still_running /\
  state (self (snd r)) = Playing /\
  current_index (self (snd r)) = Some ((i + Z.of_nat n) mod Py.len ts) /\
  passes (trace (snd r)) = (passes (trace w) + n)%nat.
Proof.
  intros ts Hidle. subst ts. revert w i.
  induction n as [|n IH]; intros w i Hlk Hse Hst Hlp Hci Hi r; subst r.
  - cbn [_monitor_playback]. unfold ret. cbn [fst snd].
    repeat split; [assumption| |lia].
    rewrite Hci, Z.add_0_r, Z.mod_small by lia. reflexivity.
  - destruct (idle_cycle_advances pygame w i Hidle Hlk Hst Hci Hi)
      as (evs & Hrun & _ & Hpass); [now right|].
    rewrite Hse in Hrun.
    assert (Hstep :
               _monitor_playback pygame (S n) w =
               _monitor_playback pygame n
                 {| self := {| tracks := tracks (self w); loop := loop (self w);
                               current_index :=
                                 Some ((i + 1) mod Py.len (tracks (self w)));
                               state := Playing;
                               _stop_event := false;
                               _lock := false |};
                    trace := trace w ++ evs |}).
    { cbn [_monitor_playback]. unfold bind at 1, stop_event_is_set.
      rewrite Hse. unfold bind. now rewrite Hrun. }
    rewrite Hstep.
    match goal with |- context [_monitor_playback pygame n ?v] =>
      specialize (IH v ((i + 1) mod Py.len (tracks (self w)))) end.
    cbn [self trace tracks loop current_index state _stop_event _lock] in IH.
    destruct IH as (I1 & I2 & I3 & I4);
      try reflexivity; try assumption;
      [apply Z.mod_pos_bound; lia|].
    rewrite I1, I2, I3, I4. repeat split.
    + f_equal. rewrite Zplus_mod_idemp_l. f_equal. lia.
    + rewrite passes_app, Hpass. lia.
Qed.

Lemma monitor_loops_round_witness :
  0 <= 1 < Py.len abc /\
  current_index (self (snd (_monitor_playback idle_engine 4
                              (player_at abc true (Some 1) Playing))))
    = Some 2.
Proof.
  assert (R : 0 <= 1 < Py.len abc) by (vm_compute; split; [discriminate|reflexivity]).
  split; [exact R|].
  pose proof (monitor_loops_round idle_engine 4
                (player_at abc true (Some 1) Playing) 1
                (conj (fun _ _ => eq_refl) (fun _ => eq_refl))
                eq_refl eq_refl eq_refl eq_refl eq_refl R) as P.
  cbv zeta in P. destruct P as (_ & _ & P & _). exact P.
Defined.
